(** * Statistics caching and aggregation of weblate/utils/stats.py

    A shallow embedding of the statistics records of Weblate: the cached
    metric dictionaries, [store], [aggregate], the aggregating nodes
    ([AggregatingStats] and its subclasses), the per translation leaf
    computation, the lazy attribute lookup of [BaseStats.__getattr__] and
    the propagation of [BaseStats.update_parents]. *)
From Stdlib Require Import ZArith String List QArith.

From stdpp Require Import base gmap strings list fin_maps.

Open Scope Z_scope.

(** ** Values and records *)

(** A value held in a statistics dictionary: Python ints (counts, word and
    character sums, author ids, the [monotonic()] clock read as an integer),
    [None], and datetimes ([last_changed]). *)
Inductive value :=
| VInt (n : Z)
| VNone
| VTime (t : Z).

Abbreviation record := (gmap string value).

(** Python truthiness of a stored value. *)
Definition truthy (v : value) : bool :=
  match v with
  | VInt n => negb (n =? 0)
  | VNone => false
  | VTime _ => true
  end.

(** Python [<] on stored values; comparing [None] or mixed types raises
    [TypeError] ([None] here). *)
Definition vlt (a b : value) : option bool :=
  match a, b with
  | VInt x, VInt y => Some (x <? y)
  | VTime x, VTime y => Some (x <? y)
  | _, _ => None
  end.

(** [str.startswith] and [str.endswith]. *)
Definition startswith (s pre : string) : bool := String.prefix pre s.

Definition endswith (s suf : string) : bool :=
  String.eqb (substring (String.length s - String.length suf)
                (String.length suf) s) suf.

(** ** Key sets *)

Definition BASICS : list string :=
  ["all"; "fuzzy"; "todo"; "readonly"; "nottranslated"; "translated";
   "approved"; "allchecks"; "translated_checks"; "dismissed_checks";
   "suggestions"; "nosuggestions"; "comments"; "approved_suggestions";
   "unlabeled"; "unapproved"]%string.

Definition BASIC_KEYS : list string :=
  map (fun x => x +:+ "_words") BASICS
  ++ map (fun x => x +:+ "_chars") BASICS
  ++ BASICS
  ++ ["languages"; "last_changed"; "last_author"; "recent_changes";
      "monthly_changes"; "total_changes"]%string.

Definition SOURCE_KEYS : list string :=
  BASIC_KEYS ++ ["source_strings"; "source_words"; "source_chars"]%string.

(** ** [BaseStats.store] *)

(** The value [store(key, value)] writes: [None] becomes [0] unless the
    key starts with ["last_"]. *)
Definition store_value (key : string) (v : value) : value :=
  match v with
  | VNone => if startswith key "last_" then VNone else VInt 0
  | _ => v
  end.

Definition store (key : string) (v : value) (d : record) : record :=
  <[key := store_value key v]> d.

(** [for key, value in stats.items(): self.store(key, value)] *)
Definition store_pairs (l : list (string * value)) (d : record) : record :=
  fold_left (fun acc kv => store kv.1 kv.2 acc) l d.

(** ** [aggregate] and [zero_stats] *)

(** A child node as seen by its parent: [getattr(stats_obj, item)]. *)
Abbreviation child := (string -> value).

(** [stats[key] += x]; a missing key ([KeyError]) or a non integer operand
    ([TypeError]) fails. *)
Definition add_key (stats : record) (key : string) (x : value) : option record :=
  match stats !! key, x with
  | Some (VInt a), VInt b => Some (<[key := VInt (a + b)]> stats)
  | _, _ => None
  end.

Definition aggregate (stats : record) (item : string) (stats_obj : child)
    : option record :=
  if String.eqb item "stats_timestamp" then
    match stats !! item, stats_obj item with
    | Some (VInt a), VInt b => Some (<[item := VInt (Z.max a b)]> stats)
    | _, _ => None
    end
  else if String.eqb item "last_changed" then
    match stats !! "last_changed"%string with
    | None => None
    | Some last =>
        let lc := stats_obj "last_changed"%string in
        if truthy lc then
          match (if truthy last then vlt last lc else Some true) with
          | None => None
          | Some true =>
              Some (<["last_author" := stats_obj "last_author"%string]>
                      (<["last_changed" := lc]> stats))
          | Some false => Some stats
          end
        else Some stats
    end
  else if String.eqb item "last_author" then Some stats
  else add_key stats item (stats_obj item).

Definition zero_stats (keys : list string) : record :=
  <["stats_timestamp" := VInt 0]>
    (<["last_author" := VNone]>
       (<["last_changed" := VNone]>
          (list_to_map (map (fun k => (k, VInt 0)) keys)))).

(** [for item in items: aggregate(stats, item, stats_obj)] *)
Fixpoint aggregate_items (stats : record) (items : list string)
    (stats_obj : child) : option record :=
  match items with
  | [] => Some stats
  | item :: rest =>
      match aggregate stats item stats_obj with
      | None => None
      | Some s => aggregate_items s rest stats_obj
      end
  end.

(** ** Aggregating nodes ([AggregatingStats] and its subclasses) *)

(** Modelled from the spec: [Project.languages] and
    [Language.objects.have_translation()] live in weblate/trans/models and
    weblate/lang/models, which are not among the sources; the spec describes
    them as the distinct languages among the descendants' translations.
    [langs] lists the language of every descendant translation. *)
Definition distinct_languages (langs : list Z) : list Z := remove_dups langs.

(** The node kinds, with what each subclass adds:
    - [KLanguage]: [LanguageStats], the [AggregatingStats] defaults;
    - [KSingleLanguage]: [ProjectLanguageStats], [CategoryLanguageStats];
    - [KComponent src]: [ComponentStats], [src] being the stats of
      [get_source_translation()] ([None] when there is none);
    - [KCategory], [KComponentList]: [ParentAggregatingStats];
    - [KProject langs], [KGlobal langs]: [ProjectStats], [GlobalStats]. *)
Inductive agg_kind :=
| KLanguage
| KSingleLanguage
| KComponent (source_translation : option child)
| KCategory
| KComponentList
| KProject (translation_languages : list Z)
| KGlobal (translation_languages : list Z).

Record agg_node := {
  kind : agg_kind;
  object_set : list child;
  category_set : list child
}.

(** [calculate_source(stats_obj, stats)] of each class. *)
Definition calculate_source (k : agg_kind) (stats_obj : child) (stats : record)
    : option record :=
  match k with
  | KLanguage | KSingleLanguage =>
      (* AggregatingStats.calculate_source *)
      match add_key stats "source_chars" (stats_obj "all_chars"%string) with
      | None => None
      | Some s1 =>
          match add_key s1 "source_words" (stats_obj "all_words"%string) with
          | None => None
          | Some s2 => add_key s2 "source_strings" (stats_obj "all"%string)
          end
      end
  | KComponent _ => Some stats
  | KCategory | KComponentList | KProject _ | KGlobal _ =>
      (* ParentAggregatingStats.calculate_source *)
      aggregate_items stats ["source_chars"; "source_words"; "source_strings"]%string
        stats_obj
  end.

(** [for obj in self.object_set: ...] *)
Fixpoint aggregate_objects (k : agg_kind) (stats : record) (objs : list child)
    : option record :=
  match objs with
  | [] => Some stats
  | o :: rest =>
      match aggregate_items stats BASIC_KEYS o with
      | None => None
      | Some s1 =>
          match calculate_source k o s1 with
          | None => None
          | Some s2 => aggregate_objects k s2 rest
          end
      end
  end.

(** [for category in self.category_set: ...] over [self.basic_keys],
    which is [SOURCE_KEYS] for every aggregating node. *)
Fixpoint aggregate_categories (stats : record) (cats : list child)
    : option record :=
  match cats with
  | [] => Some stats
  | c :: rest =>
      match aggregate_items stats SOURCE_KEYS c with
      | None => None
      | Some s => aggregate_categories s rest
      end
  end.

(** [prefetch_source()]: only [ComponentStats] overrides it. *)
Definition prefetch_source (k : agg_kind) (d : record) : record :=
  match k with
  | KComponent None =>
      store "source_strings" (VInt 0)
        (store "source_words" (VInt 0) (store "source_chars" (VInt 0) d))
  | KComponent (Some st) =>
      store "source_strings" (st "all"%string)
        (store "source_words" (st "all_words"%string)
           (store "source_chars" (st "all_chars"%string) d))
  | _ => d
  end.

(** What the overriding [_calculate_basic] methods store after
    [super()._calculate_basic()]. *)
Definition store_languages (k : agg_kind) (d : record) : record :=
  match k with
  | KSingleLanguage => store "languages" (VInt 1) d
  | KProject langs | KGlobal langs =>
      store "languages" (VInt (Z.of_nat (length (distinct_languages langs)))) d
  | _ => d
  end.

(** [AggregatingStats._calculate_basic] with the subclass overrides, on the
    node's current dictionary [d]. *)
Definition agg_calculate_basic (n : agg_node) (d : record) : option record :=
  match aggregate_objects (kind n) (zero_stats SOURCE_KEYS) (object_set n) with
  | None => None
  | Some s1 =>
      match aggregate_categories s1 (category_set n) with
      | None => None
      | Some s2 =>
          Some (store_languages (kind n)
                  (prefetch_source (kind n) (store_pairs (map_to_list s2) d)))
      end
  end.

(** [BaseStats.calculate_basic]: [_calculate_basic()] then
    [store("stats_timestamp", monotonic())], the clock reading being [now]. *)
Definition agg_calculate (n : agg_node) (now : Z) (d : record) : option record :=
  match agg_calculate_basic n d with
  | None => None
  | Some d' => Some (store "stats_timestamp" (VInt now) d')
  end.

(** ** Helpers for the facts about [aggregate] *)

Abbreviation LC := "last_changed"%string.

Abbreviation LA := "last_author"%string.

Abbreviation TS := "stats_timestamp"%string.

(** The integer of an integer value. *)
Definition vint (v : value) : Z := match v with VInt n => n | _ => 0 end.

(** The sum of one key over a list of children. *)
Definition sum_key (cs : list child) (k : string) : Z :=
  foldr (fun c acc => vint (c k) + acc) 0 cs.

(** The working dictionary holds an integer for every summed key and
    [None] or a datetime for [last_changed]. *)
Definition stats_wf (s : record) : Prop :=
  (forall k, k ∈ SOURCE_KEYS -> k <> LC -> k <> LA -> exists a, s !! k = Some (VInt a)) /\
  (s !! LC = Some VNone \/ exists t, s !! LC = Some (VTime t)).

(** A child answers an integer for every summed key and [None] or a
    datetime for [last_changed]: what a record written through [store]
    holds (see [store_value]). *)
Definition child_wf (c : child) : Prop :=
  (forall k, k ∈ SOURCE_KEYS -> k <> LC -> k <> LA -> exists b, c k = VInt b) /\
  (c LC = VNone \/ exists t, c LC = VTime t).

(** The most recent [last_changed] among children, as [aggregate] picks
    it: a strictly later datetime replaces the current one. *)
Definition latest_step (acc : option (Z * value)) (c : child) : option (Z * value) :=
  match c LC with
  | VTime t =>
      match acc with
      | None => Some (t, c LA)
      | Some (l, _) => if l <? t then Some (t, c LA) else acc
      end
  | _ => acc
  end.

Definition latest (acc : option (Z * value)) (cs : list child) : option (Z * value) :=
  fold_left latest_step cs acc.

Definition lc_of (acc : option (Z * value)) : value :=
  match acc with None => VNone | Some (t, _) => VTime t end.

Definition la_of (acc : option (Z * value)) : value :=
  match acc with None => VNone | Some (_, a) => a end.

(** ** Helpers for the facts about the aggregation loops *)

Definition SRC : list string :=
  ["source_chars"; "source_words"; "source_strings"]%string.

Definition is_parent (k : agg_kind) : bool :=
  match k with
  | KCategory | KComponentList | KProject _ | KGlobal _ => true
  | _ => false
  end.

(** ** Checkable well-formedness of children *)

(** A boolean check of [child_wf], to evaluate on concrete children. *)
Definition is_int (v : value) : bool := match v with VInt _ => true | _ => false end.

Definition lc_ok (v : value) : bool :=
  match v with VNone | VTime _ => true | VInt _ => false end.

Definition child_wfb (c : child) : bool :=
  forallb (fun k => if String.eqb k LC || String.eqb k LA then true else is_int (c k))
    SOURCE_KEYS && lc_ok (c LC).

(** ** Concrete aggregation inputs *)

(** A child whose [stats_timestamp] is later than the parent's clock
    reading (a record cached before the host rebooted, [monotonic()]
    restarting near zero). *)
Definition ts_child : child := fun k =>
  if String.eqb k LC then VTime 3
  else if String.eqb k TS then VInt 10
  else VInt 2.

Definition ts_node : agg_node :=
  {| kind := KCategory; object_set := [ts_child]; category_set := [] |}.

(** Example children of a component: a source translation of 20 strings
    and 100 words, and a target translation of the same size. *)
Definition tr_child (strings words : Z) : child := fun k =>
  if String.eqb k LC then VNone
  else if String.eqb k "all" then VInt strings
  else if String.eqb k "all_words" then VInt words
  else VInt 0.

(** Two components translated to the same two languages. *)
Definition lang_child : child := fun k =>
  if String.eqb k LC then VNone
  else if String.eqb k "languages" then VInt 2
  else VInt 0.

Definition lang_project : agg_node :=
  {| kind := KProject [1; 2; 1; 2]; object_set := [lang_child; lang_child];
     category_set := [] |}.

(** ** [BaseStats.calculate_percent] *)

(** Modelled from the spec: [translation_percent] (weblate.trans.util) is
    not among the sources. The spec: 100% when the denominator is 0 and
    [zero_complete] holds, 0% when it is 0 and [zero_complete] does not
    hold, [numerator / denominator * 100] (unclamped) otherwise. *)
Definition translation_percent (translated total : Z) (zero_complete : bool) : Q :=
  if total =? 0 then (if zero_complete then 100 else 0)%Q
  else (inject_Z translated / inject_Z total * 100)%Q.

(** [item[:-8]], dropping ["_percent"]. *)
Definition percent_base (item : string) : string :=
  substring 0 (String.length item - 8) item.

(** The key read for [total]. *)
Definition percent_total_key (base : string) : string :=
  if endswith base "_words" then "all_words"
  else if endswith base "_chars" then "all_chars"
  else "all".

Definition completed (has_review : bool) : list string :=
  if has_review then ["approved"; "approved_words"; "approved_chars"]
  else ["translated"; "translated_words"; "translated_chars"].

(** [calculate_percent(item)], the node's attribute reads being [get]
    and its [has_review] flag [has_review]. *)
Definition calculate_percent (has_review : bool) (get : string -> Z) (item : string) : Q :=
  let base := percent_base item in
  let total := get (percent_total_key base) in
  translation_percent (get base) total (bool_decide (base ∈ completed has_review)).

(** ** [BaseStats.update_parents] *)

(** A stats object of [get_update_objects()] as [update_parents] sees it:
    its [cache_key] and the [stats_timestamp] it reads after
    [prefetch_stats] (0 when nothing is cached). *)
Record stat_ref := {
  cache_key : string;
  stamp : Z
}.

(** [d[k] = v] on a Python dict kept as an association list in insertion
    order: a new key goes last, an existing key keeps its place and takes
    the new value. *)
Fixpoint dict_set (d : list (string * stat_ref)) (k : string) (v : stat_ref)
    : list (string * stat_ref) :=
  match d with
  | [] => [(k, v)]
  | (k', v') :: rest =>
      if String.eqb k k' then (k, v) :: rest else (k', v') :: dict_set rest k v
  end.

(** [stat_objects]: the dict comprehension over [get_update_objects()],
    then [stat_objects[stat.cache_key] = stat] for the extra objects. *)
Definition stat_objects (objs extra : list stat_ref) : list (string * stat_ref) :=
  fold_left (fun d st => dict_set d (cache_key st) st) (objs ++ extra) [].

(** The objects whose [update_stats()] runs, in order, for a leaf whose
    [stats_timestamp] reads [leaf_ts]. *)
Definition update_parents (leaf_ts : Z) (objs extra : list stat_ref) : list stat_ref :=
  filter (fun st => negb (negb (leaf_ts =? 0) && (leaf_ts <=? stamp st)))
    (stat_objects objs extra).*2.

(** Keys in order of first occurrence. *)
Definition dedup_step (acc : list string) (k : string) : list string :=
  if decide (k ∈ acc) then acc else acc ++ [k].

Definition dedup_first (l : list string) : list string := fold_left dedup_step l [].

(** The leaf of the spec's scenario: 10 strings, 5 translated, 4 of them
    approved, no words. *)
Definition scenario_get (k : string) : Z :=
  if String.eqb k "all" then 10
  else if String.eqb k "translated" then 5
  else if String.eqb k "approved" then 4
  else 0.

Definition project_ref : stat_ref := {| cache_key := "stats-project"; stamp := 5 |}.

(** The pure [store] under a name that stays visible inside [Lazy], whose
    own [store] is the monadic method. *)
Abbreviation store_dict := store.

(** ** The lazily loaded record of [BaseStats] *)

Module Lazy.

(** The exceptions [__getattr__] and its callers raise: [AttributeError]
    for a name starting with ["_"] ("Invalid stats") or one the calculator
    leaves unset ("Unsupported stats"), [TypeError] for an operation on
    [None] or on a value of the wrong type, and the recursion limit. *)
Inductive exn :=
| InvalidStats (name : string)
| UnsupportedStats (name : string)
| TypeError
| RecursionError.

(** What [getattr] returns: a stored value or a computed percentage. *)
Inductive attr :=
| AVal (v : value)
| APercent (q : Q).

(** The mutable state of one stats object and of its cache entry:
    [self._data] ([None] before loading), [self._pending_save], the cache
    entry under [self.cache_key] ([None] while the key is absent), the
    snapshots written by [cache.set], oldest first, and the [monotonic()]
    clock. *)
Record stats_state := mk_state {
  data : option record;
  pending_save : bool;
  cache_entry : option (option record);
  saved : list (option record);
  clock : Z
}.

Definition set_data (d : option record) (s : stats_state) : stats_state :=
  mk_state d (pending_save s) (cache_entry s) (saved s) (clock s).
Definition set_pending (b : bool) (s : stats_state) : stats_state :=
  mk_state (data s) b (cache_entry s) (saved s) (clock s).
Definition set_clock (t : Z) (s : stats_state) : stats_state :=
  mk_state (data s) (pending_save s) (cache_entry s) (saved s) t.

(** A computation on that state which may raise; the state changes made
    before a raise are kept, as in Python. *)
Definition M (A : Type) : Type := stats_state -> (exn + A) * stats_state.

#[global] Instance M_ret : MRet M := fun A a s => (inr a, s).
#[global] Instance M_bind : MBind M := fun A B k m s =>
  match m s with
  | (inl e, s') => (inl e, s')
  | (inr a, s') => k a s'
  end.

Definition raise {A} (e : exn) : M A := fun s => (inl e, s).
Definition gets {A} (f : stats_state -> A) : M A := fun s => (inr (f s), s).
Definition modify (f : stats_state -> stats_state) : M unit := fun s => (inr tt, f s).

(** [cache.get(self.cache_key, {})] *)
Definition load : M (option record) :=
  gets (fun s => match cache_entry s with None => Some ∅ | Some d => d end).

(** [if self._data is None: self._data = self.load()] *)
Definition ensure_loaded : M unit :=
  d ← gets data;
  match d with
  | None => d' ← load; modify (set_data d')
  | Some _ => mret tt : M unit
  end.

(** [self._data] used as a dict: [None] raises [TypeError]. *)
Definition current_data : M record :=
  d ← gets data;
  match d with
  | None => raise TypeError
  | Some r => mret r
  end.

(** [save()]: [cache.set(self.cache_key, self._data, ...)]. *)
Definition save : M unit :=
  modify (fun s => mk_state (data s) (pending_save s) (Some (data s))
                     (saved s ++ [data s]) (clock s)).

(** [clear()]: [self._data = {}]. *)
Definition clear : M unit := modify (set_data (Some ∅)).

(** [store(key, value)] *)
Definition store (key : string) (v : value) : M unit :=
  ensure_loaded;;
  d ← current_data;
  modify (set_data (Some (store_dict key v d))).

(** [for key, value in stats.items(): self.store(key, value)] *)
Fixpoint store_each (l : list (string * value)) : M unit :=
  match l with
  | [] => mret tt : M unit
  | (k, v) :: rest => store k v;; store_each rest
  end.

(** [monotonic()]: the clock reading; the next reading is later. *)
Definition monotonic : M Z :=
  fun s => (inr (clock s), set_clock (clock s + 1) s).

(** [calculate_basic()], around the node's [_calculate_basic()]. *)
Definition calculate_basic (calculate_basic_ : M unit) : M unit :=
  calculate_basic_;;
  t ← monotonic;
  store "stats_timestamp" (VInt t).

(** [update_stats()]; [lazy] is [settings.STATS_LAZY]. *)
Definition update_stats (lazy : bool) (calculate_basic_ : M unit) : M unit :=
  clear;;
  if lazy then save
  else calculate_basic calculate_basic_;; save.

(** An attribute read as an integer operand. *)
Definition as_int (a : attr) : M Z :=
  match a with
  | AVal (VInt n) => mret n
  | _ => raise TypeError
  end.

(** [calculate_percent(item)], reading through [getattr]: [total] first,
    then the antecedent. *)
Definition calculate_percent (has_review : bool) (getattr : string -> M attr)
    (item : string) : M attr :=
  let base := percent_base item in
  total ← getattr (percent_total_key base) ≫= as_int;
  n ← getattr base ≫= as_int;
  mret (APercent (translation_percent n total
                    (bool_decide (base ∈ completed has_review)))).

(** [if not was_pending: self.save(); self._pending_save = False] *)
Definition end_of_miss (was_pending : bool) : M unit :=
  if was_pending then mret tt
  else (save;; modify (set_pending false)).

(** [__getattr__(name)]. [calculate_by_name] is the node's
    [calculate_by_name], given the attribute lookup it reads other
    attributes through; [fuel] bounds the nesting of lookups, as Python's
    recursion limit does. *)
Fixpoint getattr (calculate_by_name : (string -> M attr) -> string -> M unit)
    (has_review : bool) (fuel : nat) (name : string) : M attr :=
  match fuel with
  | O => raise RecursionError
  | S f =>
      let getattr' := getattr calculate_by_name has_review f in
      if startswith name "_" then raise (InvalidStats name) else
      ensure_loaded;;
      if endswith name "_percent" then calculate_percent has_review getattr' name
      else if String.eqb name "stats_timestamp" then
        d ← current_data;
        mret (AVal (default (VInt 0) (d !! name)))
      else
        d ← current_data;
        match d !! name with
        | Some v => mret (AVal v)
        | None =>
            was_pending ← gets pending_save;
            modify (set_pending true);;
            calculate_by_name getattr' name;;
            d' ← current_data;
            match d' !! name with
            | None => raise (UnsupportedStats name)
            | Some v =>
                (* [save] and the flag leave [self._data] as it is, so
                   [self._data[name]] is still [v] *)
                end_of_miss was_pending;;
                mret (AVal v)
            end
        end
  end.

(** The part of [__getattr__] that follows [calculate_by_name] on a miss:
    reread the record, fail if the name is still absent, else close the
    miss and return the value. *)
Definition after_miss (name : string) (was_pending : bool) : M attr :=
  d' ← current_data;
  match d' !! name with
  | None => raise (UnsupportedStats name)
  | Some v => end_of_miss was_pending;; mret (AVal v)
  end.

End Lazy.

(** ** [TranslationStats], the per translation leaf *)

Module Leaf.
Import Lazy.

#[global] Instance value_eq_dec : EqDecision value.
Proof. solve_decision. Defined.

(** Modelled from the spec: the state codes of [weblate.utils.state],
    which is not part of this module; the facts below hold for any five
    distinct codes. *)
Record state_codes := {
  STATE_EMPTY : Z;
  STATE_FUZZY : Z;
  STATE_TRANSLATED : Z;
  STATE_APPROVED : Z;
  STATE_READONLY : Z
}.

(** A unit of [unit_set.annotate(...)]: its [state], [num_words],
    [Length("source")], its active and dismissed check counts, suggestion
    and unresolved comment counts, and the number of labels of its source
    unit. *)
Record unit_row := {
  state : Z;
  num_words : Z;
  source_length : Z;
  active_checks_count : Z;
  dismissed_checks_count : Z;
  suggestion_count : Z;
  comment_count : Z;
  source_labels : nat
}.

(** A row of the check or label breakdown queries: the check or label name
    ([None] for units without one), [Count("pk")], [Sum("num_words")] and
    [Sum(Length("source"))]. *)
Record breakdown_row := {
  row_name : option string;
  row_strings : Z;
  row_words : value;
  row_chars : value
}.

(** The translation as the leaf reads it: the state codes, [enable_review],
    its units, the last content change ([timestamp], [author_id]) found by
    [get_last_change_obj()], the timestamps of its content changes, the
    wall clock [timezone.now()] (seconds), the [url_id] of every check of
    [CHECKS], the check breakdown rows, the label names of the project and
    the label breakdown rows ([chain(stats, translation_stats)]). *)
Record translation := {
  codes : state_codes;
  enable_review : bool;
  unit_set : list unit_row;
  last_change : option (Z * value);
  change_timestamps : list Z;
  now : Z;
  check_ids : list string;
  check_rows : list breakdown_row;
  project_labels : list string;
  label_rows : list breakdown_row
}.

(** Modelled from the spec: [Sum] over a queryset is [None] over no rows
    and the integer sum otherwise; [conditional_sum(value, **cond)] of
    [weblate.utils.db] sums [value] over the rows matching [cond] and [0]
    over the others. *)
Definition sql_sum (xs : list Z) : value :=
  match xs with
  | [] => VNone
  | _ => VInt (fold_right Z.add 0 xs)
  end.

Definition conditional_sum {A} (val : A -> Z) (cond : A -> bool) (rows : list A) : value :=
  sql_sum (map (fun r => if cond r then val r else 0) rows).

(** The rows [base.aggregate(...)] runs over: the condition on
    [source_unit__labels__isnull] joins the source unit's labels (a LEFT
    JOIN), so a unit gives one row per label of its source unit, or one row
    with a NULL label when it has none. The flag is [labels IS NULL]. *)
Definition label_join (us : list unit_row) : list (unit_row * bool) :=
  flat_map (fun u => match source_labels u with
                     | O => [(u, true)]
                     | n => repeat (u, false) n
                     end) us.

(** The three measures of one partition: [name], [name_words] and
    [name_chars]. *)
Definition partition (name : string) (cond : unit_row * bool -> bool)
    (rows : list (unit_row * bool)) : list (string * value) :=
  [(name, conditional_sum (fun _ => 1) cond rows);
   (name +:+ "_words", conditional_sum (fun r => num_words r.1) cond rows);
   (name +:+ "_chars", conditional_sum (fun r => source_length r.1) cond rows)].

(** [base.aggregate(...)] of [_calculate_basic], in its order, over the
    joined rows: [Count("id")] counts rows. *)
Definition leaf_stats (c : state_codes) (us : list unit_row) : list (string * value) :=
  let rows := label_join us in
  [("all", VInt (Z.of_nat (length rows)));
   ("all_words", sql_sum (map (fun r => num_words r.1) rows));
   ("all_chars", sql_sum (map (fun r => source_length r.1) rows))]
  ++ partition "fuzzy" (fun r => state r.1 =? STATE_FUZZY c) rows
  ++ partition "readonly" (fun r => state r.1 =? STATE_READONLY c) rows
  ++ partition "translated" (fun r => STATE_TRANSLATED c <=? state r.1) rows
  ++ partition "todo" (fun r => state r.1 <? STATE_TRANSLATED c) rows
  ++ partition "nottranslated" (fun r => state r.1 =? STATE_EMPTY c) rows
  ++ partition "approved" (fun r => state r.1 =? STATE_APPROVED c) rows
  ++ partition "unapproved" (fun r => state r.1 =? STATE_TRANSLATED c) rows
  ++ partition "unlabeled" (fun r => r.2) rows
  ++ partition "allchecks" (fun r => 0 <? active_checks_count r.1) rows
  ++ partition "translated_checks"
       (fun r => (state r.1 =? STATE_TRANSLATED c) && (0 <? active_checks_count r.1)) rows
  ++ partition "dismissed_checks" (fun r => 0 <? dismissed_checks_count r.1) rows
  ++ partition "suggestions" (fun r => 0 <? suggestion_count r.1) rows
  ++ partition "nosuggestions"
       (fun r => (state r.1 <? STATE_TRANSLATED c) && (suggestion_count r.1 =? 0)) rows
  ++ partition "approved_suggestions"
       (fun r => (STATE_APPROVED c <=? state r.1) && (0 <? suggestion_count r.1)) rows
  ++ partition "comments" (fun r => 0 <? comment_count r.1) rows.

(** [fetch_last_change()] *)
Definition fetch_last_change (tr : translation) : M unit :=
  match last_change tr with
  | None => store "last_changed" VNone;; store "last_author" VNone
  | Some (ts, author) => store "last_changed" (VTime ts);; store "last_author" author
  end.

Definition attr_truthy (a : attr) : bool :=
  match a with
  | AVal v => truthy v
  | APercent q => negb (Qeq_bool q 0)
  end.

(** [count_changes()]; [self.last_changed] is read through [getattr]. *)
Definition count_changes (tr : translation) (getattr : string -> M attr) : M unit :=
  lc ← getattr "last_changed";
  if attr_truthy lc then
    match lc with
    | AVal (VTime t) =>
        let monthly := now tr - 30 * 86400 in
        let recently := t - 6 * 3600 in
        let ts := change_timestamps tr in
        store "recent_changes" (conditional_sum (fun _ => 1) (fun x => recently <? x) ts);;
        store "monthly_changes" (conditional_sum (fun _ => 1) (fun x => monthly <? x) ts);;
        store "total_changes" (VInt (Z.of_nat (length ts)))
    | _ => raise TypeError
    end
  else
    store "recent_changes" (VInt 0);;
    store "monthly_changes" (VInt 0);;
    store "total_changes" (VInt 0).

(** [TranslationStats._calculate_basic()] *)
Definition calculate_basic_ (tr : translation) (getattr : string -> M attr) : M unit :=
  store_each (leaf_stats (codes tr) (unit_set tr));;
  store "languages" (VInt 1);;
  fetch_last_change tr;;
  count_changes tr getattr.

(** The stores of one breakdown: the measured rows, then [0] for every
    name of [all_names] no row discarded. *)
Definition breakdown_stores (prefix : string) (rows : list breakdown_row)
    (all_names : list string) (key_of : string -> string) : list (string * value) :=
  let named := omap (fun r => (fun n => (n, r)) <$> row_name r) rows in
  flat_map (fun '(n, r) =>
              let k := prefix +:+ n in
              [(k, VInt (row_strings r)); (k +:+ "_words", row_words r);
               (k +:+ "_chars", row_chars r)]) named
  ++ flat_map (fun n =>
                 let k := key_of n in
                 [(k, VInt 0); (k +:+ "_words", VInt 0); (k +:+ "_chars", VInt 0)])
       (filter (fun n => key_of n ∉ (fun p => prefix +:+ p.1) <$> named)
          (remove_dups all_names)).

(** [calculate_checks()]: [allchecks] holds the [url_id]s, which already
    carry the ["check:"] prefix. *)
Definition calculate_checks (tr : translation) : M unit :=
  store_each (breakdown_stores "check:" (check_rows tr) (check_ids tr) (fun n => n));;
  save.

(** [calculate_labels()]: [alllabels] holds bare label names. *)
Definition calculate_labels (tr : translation) : M unit :=
  store_each (breakdown_stores "label:" (label_rows tr) (project_labels tr)
                (fun n => "label:" +:+ n));;
  save.

(** [TranslationStats.calculate_by_name(name)], with
    [BaseStats.calculate_by_name] first. *)
Definition calculate_by_name (tr : translation) (getattr : string -> M attr)
    (name : string) : M unit :=
  (if bool_decide (name ∈ BASIC_KEYS)
   then Lazy.calculate_basic (calculate_basic_ tr getattr);; save
   else mret tt : M unit);;
  if startswith name "check:" then calculate_checks tr
  else if startswith name "label:" then calculate_labels tr
  else mret tt.

(** [getattr(translation.stats, name)] *)
Definition stat (tr : translation) (fuel : nat) (name : string) : M attr :=
  getattr (calculate_by_name tr) (enable_review tr) fuel name.

(** [translation.stats.update_stats()] *)
Definition update_stats (tr : translation) (fuel : nat) (lazy : bool) : M unit :=
  Lazy.update_stats lazy (calculate_basic_ tr (stat tr fuel)).

(** The record [_calculate_basic()] leaves over a loaded record [d], as a
    function: the stores of [leaf_stats], [languages], [fetch_last_change()]
    and [count_changes()], which reads back the [last_changed] just
    stored. *)
Definition fetch_last_change_record (tr : translation) (d : record) : record :=
  match last_change tr with
  | None => store_dict "last_author" VNone (store_dict "last_changed" VNone d)
  | Some (ts, author) => store_dict "last_author" author (store_dict "last_changed" (VTime ts) d)
  end.

Definition count_changes_record (tr : translation) (d : record) : record :=
  match last_change tr with
  | Some (t, _) =>
      let monthly := now tr - 30 * 86400 in
      let recently := t - 6 * 3600 in
      let ts := change_timestamps tr in
      store_dict "total_changes" (VInt (Z.of_nat (length ts)))
        (store_dict "monthly_changes" (conditional_sum (fun _ => 1) (fun x => monthly <? x) ts)
           (store_dict "recent_changes" (conditional_sum (fun _ => 1) (fun x => recently <? x) ts) d))
  | None =>
      store_dict "total_changes" (VInt 0)
        (store_dict "monthly_changes" (VInt 0) (store_dict "recent_changes" (VInt 0) d))
  end.

Definition leaf_record (tr : translation) (d : record) : record :=
  count_changes_record tr
    (fetch_last_change_record tr
       (store_dict "languages" (VInt 1) (store_pairs (leaf_stats (codes tr) (unit_set tr)) d))).

(** The record an eager [update_stats] persists at clock [t]. *)
Definition eager_record (tr : translation) (t : Z) : record :=
  <["stats_timestamp" := VInt t]> (leaf_record tr ∅).

(** The number of units satisfying [p]. *)
Definition count_units (p : unit_row -> bool) (us : list unit_row) : Z :=
  Z.of_nat (length (filter (fun u => p u = true) us)).

(** The basic keys the leaf computation stores after the partitions. *)
Definition leaf_late_keys : list string :=
  ["languages"; "last_changed"; "last_author"; "recent_changes";
   "monthly_changes"; "total_changes"]%string.

(** Concrete inputs: the codes Weblate uses (empty 0, fuzzy 10,
    translated 20, approved 30, read-only 100), a translation with one
    read-only unit and one without units, and two cache states. *)
Definition weblate_codes : state_codes := {|
  STATE_EMPTY := 0; STATE_FUZZY := 10; STATE_TRANSLATED := 20;
  STATE_APPROVED := 30; STATE_READONLY := 100 |}.

Definition scenario_unit (st : Z) : unit_row := {|
  state := st; num_words := 2; source_length := 7; active_checks_count := 0;
  dismissed_checks_count := 0; suggestion_count := 0; comment_count := 0;
  source_labels := 0 |}.

Definition readonly_translation : translation := {|
  codes := weblate_codes; enable_review := true;
  unit_set := [scenario_unit 100];
  last_change := Some (500, VInt 3); change_timestamps := [500];
  now := 1000; check_ids := ["check:same"]; check_rows := [];
  project_labels := []; label_rows := [] |}.

Definition empty_translation : translation := {|
  codes := weblate_codes; enable_review := false; unit_set := [];
  last_change := None; change_timestamps := [];
  now := 1000; check_ids := []; check_rows := [];
  project_labels := []; label_rows := [] |}.

Definition fresh_state : stats_state := mk_state None false None [] 0.

Definition loaded_state : stats_state := mk_state (Some ∅) false None [] 0.

End Leaf.

(** ** Aggregating nodes in the state monad *)

Module AggNode.
Import Lazy.

(** [prefetch_source()] through [store]: only [ComponentStats] overrides
    it. *)
Definition prefetch_source_ (k : agg_kind) : M unit :=
  match k with
  | KComponent None =>
      store "source_chars" (VInt 0);; store "source_words" (VInt 0);;
      store "source_strings" (VInt 0)
  | KComponent (Some st) =>
      store "source_chars" (st "all_chars"%string);;
      store "source_words" (st "all_words"%string);;
      store "source_strings" (st "all"%string)
  | _ => mret tt
  end.

(** What the overriding [_calculate_basic] methods store after
    [super()._calculate_basic()]. *)
Definition store_languages_ (k : agg_kind) : M unit :=
  match k with
  | KSingleLanguage => store "languages" (VInt 1)
  | KProject langs | KGlobal langs =>
      store "languages" (VInt (Z.of_nat (length (distinct_languages langs))))
  | _ => mret tt
  end.

(** [AggregatingStats._calculate_basic()] with the subclass overrides: the
    local [stats] dict is computed first ([aggregate] raising [TypeError]
    on a non integer operand leaves [self._data] untouched), then stored
    item by item. *)
Definition calculate_basic_ (n : agg_node) : M unit :=
  match aggregate_objects (kind n) (zero_stats SOURCE_KEYS) (object_set n) with
  | None => raise TypeError
  | Some s1 =>
      match aggregate_categories s1 (category_set n) with
      | None => raise TypeError
      | Some s2 =>
          store_each (map_to_list s2);;
          prefetch_source_ (kind n);;
          store_languages_ (kind n)
      end
  end.

End AggNode.

(** ** Stats objects that are never cached *)

Module NoCache.
Import Lazy.

(** [save()] of [DummyTranslationStats] and [GhostStats]: [return]. *)
Definition save : M unit := mret tt.

(** [BaseStats.update_stats()] with that [save]. *)
Definition update_stats (lazy : bool) (calculate_basic_ : M unit) : M unit :=
  clear;;
  if lazy then save
  else calculate_basic calculate_basic_;; save.

(** [DummyTranslationStats._calculate_basic()]:
    [self._data = zero_stats(self.basic_keys)], [basic_keys] being
    [BASIC_KEYS]. *)
Definition dummy_calculate_basic_ : M unit :=
  modify (set_data (Some (zero_stats BASIC_KEYS))).

(** The [stats] dict of [GhostStats._calculate_basic()]; [base] answers
    [getattr(self.base, key)]. *)
Definition ghost_stats (base : option child) : record :=
  let stats := zero_stats SOURCE_KEYS in
  match base with
  | None => stats
  | Some b =>
      let stats := <["all_chars" := b "all_chars"%string]>
                     (<["all_words" := b "all_words"%string]>
                        (<["all" := b "all"%string]> stats)) in
      let stats := <["todo" := default VNone (stats !! "all"%string)]> stats in
      let stats := <["todo_words" := default VNone (stats !! "all_words"%string)]> stats in
      <["todo_chars" := default VNone (stats !! "all_chars"%string)]> stats
  end.

(** [GhostStats._calculate_basic()]: every item of that dict through
    [store]. *)
Definition ghost_calculate_basic_ (base : option child) : M unit :=
  store_each (map_to_list (ghost_stats base)).

End NoCache.

(** ** Every kind of stats node *)

Module Nodes.
Import Lazy Leaf.

(** A stats node: a translation ([TranslationStats]), an aggregating node
    ([AggregatingStats] and its subclasses), [DummyTranslationStats] or
    [GhostStats] (with its [base]). *)
Inductive stats_node :=
| NTranslation (tr : translation)
| NAggregating (n : agg_node)
| NDummy
| NGhost (base : option child).

(** [node.update_stats()] *)
Definition node_update_stats (fuel : nat) (x : stats_node) (lazy : bool) : M unit :=
  match x with
  | NTranslation tr => Leaf.update_stats tr fuel lazy
  | NAggregating n => Lazy.update_stats lazy (AggNode.calculate_basic_ n)
  | NDummy => NoCache.update_stats lazy NoCache.dummy_calculate_basic_
  | NGhost b => NoCache.update_stats lazy (NoCache.ghost_calculate_basic_ b)
  end.


End Nodes.

(** ** The derived properties of [BaseStats] *)

Module Derived.
Import Lazy.

(** [waiting_review], [waiting_review_words] and [waiting_review_chars]:
    [self.translated<sfx> - self.approved<sfx> - self.readonly<sfx>], the
    three attributes read through [__getattr__] from left to right; [sfx]
    is [""], ["_words"] or ["_chars"]. *)
Definition waiting_review_of (getattr : string -> M attr) (sfx : string) : M Z :=
  t ← getattr ("translated" +:+ sfx) ≫= as_int;
  a ← getattr ("approved" +:+ sfx) ≫= as_int;
  r ← getattr ("readonly" +:+ sfx) ≫= as_int;
  mret (t - a - r).

(** The keys [get_data()] computes with [calculate_percent]. *)
Definition PERCENTS : list string :=
  ["translated_percent"; "approved_percent"; "fuzzy_percent";
   "readonly_percent"; "allchecks_percent"; "translated_checks_percent";
   "translated_words_percent"; "approved_words_percent";
   "fuzzy_words_percent"; "readonly_words_percent";
   "allchecks_words_percent"; "translated_checks_words_percent"]%string.

(** [{percent: self.calculate_percent(percent) for percent in percents}],
    computed in list order. *)
Fixpoint percent_pairs (has_review : bool) (getattr : string -> M attr)
    (ps : list string) : M (list (string * attr)) :=
  match ps with
  | [] => mret [] : M (list (string * attr))
  | p :: rest =>
      q ← calculate_percent has_review getattr p;
      l ← percent_pairs has_review getattr rest;
      mret ((p, q) :: l)
  end.

(** [get_data()]: the percentages, then [data.update(self._data)], so a
    key of [self._data] replaces a computed percentage ([None] data raises
    [TypeError]). *)
Definition get_data (has_review : bool) (getattr : string -> M attr)
    : M (gmap string attr) :=
  ps ← percent_pairs has_review getattr PERCENTS;
  d ← current_data;
  mret ((AVal <$> d) ∪ list_to_map ps).

End Derived.

(** ** [prefetch_many] and [prefetch_stats] *)

Module Prefetch.

(** A stats object as [prefetch_many] sees it: its [cache_key] and its
    [_data] ([None] while not loaded). *)
Record stats_obj := mk_obj {
  obj_key : string;
  obj_data : option record
}.

(** [is_loaded]: [self._data is not None]. *)
Definition is_loaded (o : stats_obj) : bool :=
  match obj_data o with Some _ => true | None => false end.

(** [set_data(value)] on the object at position [i] of the list; the
    objects are distinct, so one object is one position. *)
Definition set_data_at (i : nat) (v : option record) (objs : list stats_obj)
    : list stats_obj :=
  alter (fun o => mk_obj (obj_key o) v) i objs.

(** [lookup = {i.cache_key: i for i in stats if not i.is_loaded}], the
    object kept as its position: a later object with the same key replaces
    an earlier one. *)
Definition prefetch_lookup (objs : list stats_obj) : gmap string nat :=
  foldl (fun m io => if is_loaded io.2 then m else <[obj_key io.2 := io.1]> m) ∅
    (zip (seq 0 (length objs)) objs).

(** [cache.get_many(keys)]: the entries of the cache under those keys (a
    cache entry is the value [save()] wrote, possibly [None]). *)
Definition get_many (cache : gmap string (option record)) (keys : gmap string nat)
    : gmap string (option record) :=
  filter (fun kv => is_Some (keys !! kv.1)) cache.

(** One step of the loops of [prefetch_many]: [lookup[key].set_data(value)]
    for an item of which [key_of] gives the key and [val_of] the value. *)
Definition set_step {A} (lookup : gmap string nat) (key_of : A -> string)
    (val_of : A -> option record) (objs : list stats_obj) (a : A) : list stats_obj :=
  match lookup !! key_of a with
  | Some i => set_data_at i (val_of a) objs
  | None => objs
  end.

(** [prefetch_many(stats)] against the cache [cache]: the fetched values,
    then [{}] for every key the cache does not hold. *)
Definition prefetch_many (cache : gmap string (option record)) (objs : list stats_obj)
    : list stats_obj :=
  let lookup := prefetch_lookup objs in
  if decide (lookup = ∅) then objs else
  let data := get_many cache lookup in
  let objs1 := foldl (set_step lookup (fun kv : string * option record => kv.1)
                        (fun kv => kv.2)) objs (map_to_list data) in
  foldl (set_step lookup (fun k : string => k) (fun _ => Some ∅)) objs1
    (elements (dom lookup ∖ dom data)).

(** [prefetch_stats(queryset)]: an empty list is returned as it is,
    otherwise [prefetch_many] runs over all its objects. *)
Definition prefetch_stats (cache : gmap string (option record)) (objs : list stats_obj)
    : list stats_obj :=
  match objs with
  | [] => objs
  | _ => prefetch_many cache objs
  end.

(** The object at position [i] is the last not loaded one with its key. *)
Definition last_unloaded (objs : list stats_obj) (i : nat) (o : stats_obj) : Prop :=
  is_loaded o = false /\
  forall j o', (i < j)%nat -> objs !! j = Some o' -> obj_key o' = obj_key o ->
    is_loaded o' = true.

End Prefetch.

(** ** [get_update_objects()] *)

Module Parents.

(** A category: its [cache_key], its project's [cache_key] and its parent
    category. *)
Inductive category :=
| Category (cat_key : string) (cat_project : string) (cat_parent : option category).

(** A component: its [cache_key], its project's, its category and the
    [cache_key]s of its component lists. *)
Record component := {
  comp_key : string;
  comp_project : string;
  comp_category : option category;
  comp_lists : list string
}.

(** A translation: the [cache_key] and [pk] (as text) of its language, and
    its component. *)
Record translation_obj := {
  tr_language : string;
  tr_language_pk : string;
  tr_component : component
}.

(** [BaseStats.cache_key]: [f"stats-{self._object.cache_key}"]. *)
Definition stats_key (k : string) : string := "stats-" +:+ k.

(** [GlobalStats.cache_key] *)
Definition GLOBAL : string := "stats-global".

Section UpdateObjects.

(** The persisted [stats_timestamp] of every stats object, by its cache
    key, as [update_parents] reads it. *)
Variable ts : string -> Z.

Definition sref (key : string) : stat_ref := {| cache_key := key; stamp := ts key |}.

(** [BaseStats.get_update_objects()], inherited by [LanguageStats],
    [ProjectStats], [ComponentListStats] and [ProjectLanguageStats]. *)
Definition base_update_objects : list stat_ref := [sref GLOBAL].

Definition cat_key_of (c : category) : string :=
  match c with Category k _ _ => k end.

(** [CategoryStats.get_update_objects()] *)
Fixpoint category_update_objects (c : category) : list stat_ref :=
  match c with
  | Category _ p parent =>
      [sref (stats_key p)] ++ base_update_objects
      ++ match parent with
         | Some q => [sref (stats_key (cat_key_of q))] ++ category_update_objects q
         | None => []
         end
      ++ base_update_objects
  end.

(** [ComponentStats.get_update_objects()] *)
Definition component_update_objects (c : component) : list stat_ref :=
  [sref (stats_key (comp_project c))] ++ base_update_objects
  ++ match comp_category c with
     | Some q => [sref (stats_key (cat_key_of q))] ++ category_update_objects q
     | None => []
     end
  ++ flat_map (fun cl => [sref (stats_key cl)] ++ base_update_objects) (comp_lists c)
  ++ base_update_objects.

(** [ProjectLanguage.cache_key]: [f"{self.project.cache_key}-{self.language.pk}"]. *)
Definition project_language_key (t : translation_obj) : string :=
  comp_project (tr_component t) +:+ "-" +:+ tr_language_pk t.

(** [TranslationStats.get_update_objects()] *)
Definition translation_update_objects (t : translation_obj) : list stat_ref :=
  [sref (stats_key (tr_language t))] ++ base_update_objects
  ++ [sref (stats_key (comp_key (tr_component t)))]
  ++ component_update_objects (tr_component t)
  ++ [sref (stats_key (project_language_key t))] ++ base_update_objects
  ++ base_update_objects.

End UpdateObjects.

(** The category and its ancestors. *)
Fixpoint category_chain (c : category) : list category :=
  match c with
  | Category _ _ None => [c]
  | Category _ _ (Some q) => c :: category_chain q
  end.

Definition cat_project_of (c : category) : string :=
  match c with Category _ p _ => p end.

(** The [cache_key]s of the stats of a category and of its ancestors,
    nearest first. *)
Definition category_keys (c : category) : list string :=
  stats_key <$> (cat_key_of <$> category_chain c).

End Parents.

(** ** Concrete inputs of the further facts *)

Module Inputs.
Import Lazy Leaf Parents.

(** The loaded record of [readonly_translation] right after an eager
    [update_stats()] at clock 0. *)
Definition reviewed_state : stats_state :=
  mk_state (Some (eager_record readonly_translation 0)) false None [] 0.

(** A cached record of 10 strings, 5 of them translated. *)
Definition cached_record : record := <["translated" := VInt 5]> (<["all" := VInt 10]> ∅).

(** That record in the cache, not loaded yet, and loaded. *)
Definition cached_state : stats_state := mk_state None false (Some (Some cached_record)) [] 0.

Definition loaded_cached_state : stats_state := mk_state (Some cached_record) false None [] 0.

(** A child whose [all] reads [None]. *)
Definition none_child : child := fun k => if String.eqb k "all" then VNone else VInt 0.

Definition failing_node : agg_node :=
  {| kind := KCategory; object_set := [none_child]; category_set := [] |}.

(** A translation whose component sits in a subcategory and in one
    component list. *)
Definition sub_category : category :=
  Category "p/root/sub" "p" (Some (Category "p/root" "p" None)).

Definition nested_translation : translation_obj := {|
  tr_language := "cs"; tr_language_pk := "7";
  tr_component := {| comp_key := "p/c"; comp_project := "p";
                     comp_category := Some sub_category; comp_lists := ["list"] |} |}.

End Inputs.

(** ** Tactics *)

Ltac decide_list := apply (bool_decide_unpack _); vm_compute; reflexivity.

Ltac str_cases :=
  repeat match goal with
  | |- context [String.eqb ?a ?b] => destruct (String.eqb_spec a b); try subst
  | H : context [String.eqb ?a ?b] |- _ => destruct (String.eqb_spec a b); try subst
  end.

Ltac in_list := apply list_elem_of_In; repeat (first [left; reflexivity | right]).

(** ** Facts about [aggregate] *)

Lemma aggregate_frame (s : record) i c s' k :
  aggregate s i c = Some s' -> k <> i -> (i = LC -> k <> LA) -> s' !! k = s !! k.
Proof.
  unfold aggregate, add_key. intros H Hki Hla.
  destruct (String.eqb_spec i TS) as [->|Hts].
  { repeat case_match; simplify_eq. by rewrite lookup_insert_ne. }
  destruct (String.eqb_spec i LC) as [->|Hlc].
  { specialize (Hla eq_refl).
    repeat case_match; simplify_eq; try done.
    all: rewrite !lookup_insert_ne; congruence. }
  destruct (String.eqb_spec i LA) as [->|Hla'].
  { by simplify_eq. }
  repeat case_match; simplify_eq. by rewrite lookup_insert_ne.
Qed.

Lemma aggregate_author (s : record) c : aggregate s LA c = Some s.
Proof. reflexivity. Qed.

Lemma aggregate_la (s : record) i c s' :
  i <> LC -> aggregate s i c = Some s' -> s' !! LA = s !! LA.
Proof.
  intros Hi H. destruct (decide (i = LA)) as [->|Hne].
  - rewrite aggregate_author in H. by simplify_eq.
  - eapply aggregate_frame; eauto.
Qed.

Lemma aggregate_items_frame (s : record) items c s' k :
  aggregate_items s items c = Some s' -> k ∉ items ->
  (LC ∈ items -> k <> LA) -> s' !! k = s !! k.
Proof.
  revert s. induction items as [|i rest IH]; intros s H Hk Hla; simpl in H.
  - by simplify_eq.
  - destruct (aggregate s i c) as [s1|] eqn:E; [|done].
    apply not_elem_of_cons in Hk as [Hki Hk].
    rewrite (IH s1 H Hk); [|intros; apply Hla; set_solver].
    eapply aggregate_frame; [exact E|exact Hki|].
    intros ->. apply Hla. set_solver.
Qed.

Lemma aggregate_items_la (s : record) items c s' :
  LC ∉ items -> aggregate_items s items c = Some s' -> s' !! LA = s !! LA.
Proof.
  revert s. induction items as [|i rest IH]; intros s Hk H; simpl in H.
  - by simplify_eq.
  - destruct (aggregate s i c) as [s1|] eqn:E; [|done].
    apply not_elem_of_cons in Hk as [Hki Hk].
    rewrite (IH s1 Hk H). eapply aggregate_la; eauto.
Qed.

Lemma aggregate_items_lc (s : record) items c s' :
  LC ∉ items -> aggregate_items s items c = Some s' -> s' !! LC = s !! LC.
Proof.
  intros Hk H. eapply aggregate_items_frame; [exact H|exact Hk|]. intros; done.
Qed.

Lemma aggregate_num (s : record) k c s' :
  k <> TS -> k <> LC -> k <> LA -> aggregate s k c = Some s' ->
  exists a, s !! k = Some (VInt a) /\ s' !! k = Some (VInt (a + vint (c k))).
Proof.
  intros Hts Hlc Hla H. unfold aggregate, add_key in H.
  apply String.eqb_neq in Hts; apply String.eqb_neq in Hlc;
  apply String.eqb_neq in Hla. rewrite Hts, Hlc, Hla in H.
  repeat case_match; simplify_eq. eexists; split; [done|].
  by rewrite lookup_insert_eq.
Qed.

Lemma aggregate_items_num (s : record) items c s' k :
  NoDup items -> k ∈ items -> k <> TS -> k <> LC -> k <> LA ->
  aggregate_items s items c = Some s' ->
  exists a, s !! k = Some (VInt a) /\ s' !! k = Some (VInt (a + vint (c k))).
Proof.
  revert s. induction items as [|i rest IH]; intros s Hnd Hk Hts Hlc Hla H;
    simpl in H; [set_solver|].
  apply NoDup_cons in Hnd as [Hi Hnd].
  destruct (aggregate s i c) as [s1|] eqn:E; [|done].
  destruct (decide (i = k)) as [->|Hne].
  - destruct (aggregate_num s k c s1) as (a & Ha & Ha1); [done..|].
    exists a. split; [done|].
    rewrite (aggregate_items_frame s1 rest c s' k H Hi); [done|].
    intros _; done.
  - destruct (IH s1) as (a & Ha & Ha'); [done|set_solver|done..|].
    exists a. split; [|done].
    rewrite <- Ha. symmetry. eapply aggregate_frame; [exact E|congruence|].
    intros ->. done.
Qed.

Lemma aggregate_lc (s : record) c s' acc :
  (c LC = VNone \/ exists t, c LC = VTime t) ->
  s !! LC = Some (lc_of acc) -> s !! LA = Some (la_of acc) ->
  aggregate s LC c = Some s' ->
  s' !! LC = Some (lc_of (latest_step acc c)) /\
  s' !! LA = Some (la_of (latest_step acc c)).
Proof.
  intros Hc Hlc Hla H. unfold aggregate in H. simpl in H.
  rewrite Hlc in H. unfold latest_step.
  destruct Hc as [Hc | [t Hc]]; rewrite Hc in H |- *; simpl in H.
  - simplify_eq. done.
  - destruct acc as [[l a]|]; simpl in H |- *.
    + destruct (l <? t); simplify_eq; [|done].
      rewrite lookup_insert_eq, lookup_insert_ne; [|done].
      by rewrite lookup_insert_eq.
    + simplify_eq.
      rewrite lookup_insert_eq, lookup_insert_ne; [|done].
      by rewrite lookup_insert_eq.
Qed.

Lemma aggregate_items_latest (s : record) items c s' acc :
  NoDup items -> LC ∈ items ->
  (c LC = VNone \/ exists t, c LC = VTime t) ->
  s !! LC = Some (lc_of acc) -> s !! LA = Some (la_of acc) ->
  aggregate_items s items c = Some s' ->
  s' !! LC = Some (lc_of (latest_step acc c)) /\
  s' !! LA = Some (la_of (latest_step acc c)).
Proof.
  revert s. induction items as [|i rest IH]; intros s Hnd Hin Hc Hlc Hla H;
    simpl in H; [set_solver|].
  apply NoDup_cons in Hnd as [Hi Hnd].
  destruct (aggregate s i c) as [s1|] eqn:E; [|done].
  destruct (decide (i = LC)) as [->|Hne].
  - destruct (aggregate_lc s c s1 acc) as [H1 H2]; [done..|].
    rewrite (aggregate_items_lc s1 rest c s' Hi H).
    rewrite (aggregate_items_la s1 rest c s' Hi H). done.
  - apply (IH s1); [done|set_solver|done| |  |done].
    + rewrite <- Hlc. eapply aggregate_frame; [exact E|congruence|].
      intros; congruence.
    + rewrite <- Hla. eapply aggregate_la; eauto.
Qed.

Lemma ts_not_source : TS ∉ SOURCE_KEYS.
Proof. decide_list. Qed.

Lemma aggregate_ok (s : record) i c :
  i ∈ SOURCE_KEYS -> stats_wf s -> child_wf c ->
  exists s', aggregate s i c = Some s' /\ stats_wf s'.
Proof.
  intros Hi [Hnum Hlc] [Cnum Clc].
  destruct (decide (i = TS)) as [->|Hts]; [by apply ts_not_source in Hi|].
  destruct (decide (i = LC)) as [->|Hnlc].
  - unfold aggregate. simpl.
    assert (Hlast : exists last, s !! LC = Some last /\
              (last = VNone \/ exists t, last = VTime t))
      by (destruct Hlc as [H | [t H]]; eauto).
    destruct Hlast as (last & Hl & Hlast). rewrite Hl.
    destruct Clc as [Hc | [t Hc]]; rewrite Hc; simpl.
    { eexists; split; [done|]. split; eauto. }
    assert (Hsome : exists b, (if truthy last then vlt last (VTime t) else Some true) = Some b)
      by (destruct Hlast as [-> | [t' ->]]; simpl; eauto).
    destruct Hsome as [b Hb]. rewrite Hb.
    destruct b; (eexists; split; [done|]).
    + split.
      * intros k Hk Hk1 Hk2. rewrite !lookup_insert_ne; [|congruence..]. auto.
      * right. exists t. rewrite lookup_insert_ne; [|done].
        by rewrite lookup_insert_eq.
    + split; eauto.
  - destruct (decide (i = LA)) as [->|Hnla].
    { exists s. split; [done|]. split; eauto. }
    destruct (Hnum i Hi Hnlc Hnla) as [a Ha].
    destruct (Cnum i Hi Hnlc Hnla) as [b Hb].
    unfold aggregate, add_key.
    apply String.eqb_neq in Hts; apply String.eqb_neq in Hnlc;
    apply String.eqb_neq in Hnla. rewrite Hts, Hnlc, Hnla, Ha, Hb.
    apply String.eqb_neq in Hnlc.
    eexists; split; [done|]. split.
    + intros k Hk Hk1 Hk2. destruct (decide (i = k)) as [->|Hne].
      * rewrite lookup_insert_eq. eauto.
      * rewrite lookup_insert_ne; auto.
    + rewrite lookup_insert_ne; auto.
Qed.

Lemma aggregate_items_ok (s : record) items c :
  Forall (fun i => i ∈ SOURCE_KEYS) items -> stats_wf s -> child_wf c ->
  exists s', aggregate_items s items c = Some s' /\ stats_wf s'.
Proof.
  revert s. induction items as [|i rest IH]; intros s Hall Hs Hc; simpl.
  - eauto.
  - apply Forall_cons in Hall as [Hi Hall].
    destruct (aggregate_ok s i c Hi Hs Hc) as (s1 & E & Hs1). rewrite E.
    auto.
Qed.

(** ** Facts about the aggregation loops *)

Lemma basic_not_src : Forall (fun k => k ∉ SRC) BASIC_KEYS.
Proof. decide_list. Qed.

Lemma src_not_basic : Forall (fun k => k ∉ BASIC_KEYS) SRC.
Proof. decide_list. Qed.

Lemma basic_in_source : Forall (fun k => k ∈ SOURCE_KEYS) BASIC_KEYS.
Proof. decide_list. Qed.

Lemma src_in_source : Forall (fun k => k ∈ SOURCE_KEYS) SRC.
Proof. decide_list. Qed.

Lemma source_in_source : Forall (fun k => k ∈ SOURCE_KEYS) SOURCE_KEYS.
Proof. decide_list. Qed.

Lemma basic_nodup : NoDup BASIC_KEYS.
Proof. decide_list. Qed.

Lemma source_nodup : NoDup SOURCE_KEYS.
Proof. decide_list. Qed.

Lemma src_nodup : NoDup SRC.
Proof. decide_list. Qed.

Lemma lc_in_basic : LC ∈ BASIC_KEYS.
Proof. decide_list. Qed.

Lemma lc_in_source : LC ∈ SOURCE_KEYS.
Proof. decide_list. Qed.

Lemma lc_not_src : LC ∉ SRC.
Proof. decide_list. Qed.

Lemma la_not_src : LA ∉ SRC.
Proof. decide_list. Qed.

Lemma ts_not_basic : TS ∉ BASIC_KEYS.
Proof. decide_list. Qed.

Lemma add_key_frame (s : record) k x s' key :
  add_key s k x = Some s' -> key <> k -> s' !! key = s !! key.
Proof.
  unfold add_key. intros H Hne. repeat case_match; simplify_eq.
  by rewrite lookup_insert_ne.
Qed.

Lemma add_key_ok (s : record) k b :
  k ∈ SOURCE_KEYS -> k <> LC -> k <> LA -> stats_wf s ->
  exists s', add_key s k (VInt b) = Some s' /\ stats_wf s'.
Proof.
  intros Hk H1 H2 [Hnum Hlc]. destruct (Hnum k Hk H1 H2) as [a Ha].
  unfold add_key. rewrite Ha. eexists; split; [done|]. split.
  - intros k' Hk' H1' H2'. destruct (decide (k = k')) as [->|Hne].
    + rewrite lookup_insert_eq. eauto.
    + rewrite lookup_insert_ne; auto.
  - rewrite lookup_insert_ne; auto.
Qed.

Lemma calculate_source_frame kd o (s : record) s' key :
  calculate_source kd o s = Some s' -> key ∉ SRC -> s' !! key = s !! key.
Proof.
  intros H Hk. unfold SRC in Hk.
  destruct kd; unfold calculate_source in H; cbv beta iota in H;
    try (by simplify_eq);
    try (eapply aggregate_items_frame; [exact H|exact Hk|];
         intros Hin; exfalso; by apply lc_not_src).
  all: destruct (add_key s "source_chars" _) as [s1|] eqn:E1; [|done].
  all: destruct (add_key s1 "source_words" _) as [s2|] eqn:E2; [|done].
  all: rewrite (add_key_frame _ _ _ _ _ H); [|set_solver].
  all: rewrite (add_key_frame _ _ _ _ _ E2); [|set_solver].
  all: rewrite (add_key_frame _ _ _ _ _ E1); [|set_solver]; done.
Qed.

Lemma calculate_source_ok kd o (s : record) :
  stats_wf s -> child_wf o -> exists s', calculate_source kd o s = Some s' /\ stats_wf s'.
Proof.
  intros Hs Ho. pose proof src_in_source as Hsrc.
  unfold SRC in Hsrc. repeat (apply Forall_cons in Hsrc as [? Hsrc]).
  destruct Ho as [Onum Olc].
  destruct kd; unfold calculate_source; cbv beta iota; try (by eauto);
    try (apply aggregate_items_ok; [by repeat constructor|done|by split]).
  all: destruct (Onum "all_chars"%string) as [b1 Hb1]; [decide_list|done|done|].
  all: destruct (Onum "all_words"%string) as [b2 Hb2]; [decide_list|done|done|].
  all: destruct (Onum "all"%string) as [b3 Hb3]; [decide_list|done|done|].
  all: rewrite Hb1, Hb2, Hb3.
  all: destruct (add_key_ok s "source_chars" b1) as (s1 & -> & Hs1); [done..|].
  all: destruct (add_key_ok s1 "source_words" b2) as (s2 & -> & Hs2); [done..|].
  all: by apply add_key_ok.
Qed.

Lemma calculate_source_parent kd o (s : record) s' key :
  is_parent kd = true -> key ∈ SRC -> calculate_source kd o s = Some s' ->
  exists a, s !! key = Some (VInt a) /\ s' !! key = Some (VInt (a + vint (o key))).
Proof.
  intros Hp Hk H.
  assert (Hts : key <> TS) by (intros ->; unfold SRC in Hk; set_solver).
  assert (Hlc : key <> LC) by (intros ->; by apply lc_not_src).
  assert (Hla : key <> LA) by (intros ->; by apply la_not_src).
  destruct kd; simpl in Hp; try done;
    unfold calculate_source in H; cbv beta iota in H;
    (eapply aggregate_items_num; [exact src_nodup|exact Hk|done..|exact H]).
Qed.

Lemma aggregate_objects_ok kd (s : record) objs :
  stats_wf s -> Forall child_wf objs ->
  exists s', aggregate_objects kd s objs = Some s' /\ stats_wf s'.
Proof.
  revert s. induction objs as [|o rest IH]; intros s Hs Hall;
    cbn [aggregate_objects aggregate_categories]; [eauto|].
  apply Forall_cons in Hall as [Ho Hall].
  destruct (aggregate_items_ok s BASIC_KEYS o basic_in_source Hs Ho) as (s1 & -> & Hs1).
  destruct (calculate_source_ok kd o s1 Hs1 Ho) as (s2 & -> & Hs2).
  auto.
Qed.

Lemma aggregate_objects_num kd (s : record) objs s' k a :
  k ∈ BASIC_KEYS -> k <> LC -> k <> LA ->
  s !! k = Some (VInt a) -> aggregate_objects kd s objs = Some s' ->
  s' !! k = Some (VInt (a + sum_key objs k)).
Proof.
  intros Hk Hlc Hla. revert s a.
  induction objs as [|o rest IH]; intros s a Ha H; cbn [aggregate_objects aggregate_categories] in H.
  - simplify_eq. simpl. by rewrite Z.add_0_r.
  - destruct (aggregate_items s BASIC_KEYS o) as [s1|] eqn:E1; [|done].
    destruct (calculate_source kd o s1) as [s2|] eqn:E2; [|done].
    assert (Hts : k <> TS) by (intros ->; by apply ts_not_basic).
    destruct (aggregate_items_num s BASIC_KEYS o s1 k basic_nodup Hk Hts Hlc Hla E1)
      as (a' & Ha' & Hs1).
    rewrite Ha in Ha'. injection Ha' as <-.
    assert (Hs2 : s2 !! k = Some (VInt (a + vint (o k)))).
    { rewrite (calculate_source_frame _ _ _ _ _ E2); [done|].
      by apply (proj1 (Forall_forall _ _) basic_not_src). }
    rewrite (IH s2 _ Hs2 H). simpl. f_equal. f_equal. lia.
Qed.

Lemma aggregate_objects_latest kd (s : record) objs s' acc :
  Forall child_wf objs ->
  s !! LC = Some (lc_of acc) -> s !! LA = Some (la_of acc) ->
  aggregate_objects kd s objs = Some s' ->
  s' !! LC = Some (lc_of (latest acc objs)) /\
  s' !! LA = Some (la_of (latest acc objs)).
Proof.
  revert s acc. induction objs as [|o rest IH]; intros s acc Hall Hlc Hla H;
    cbn [aggregate_objects aggregate_categories] in H; [by simplify_eq|].
  apply Forall_cons in Hall as [Ho Hall].
  destruct (aggregate_items s BASIC_KEYS o) as [s1|] eqn:E1; [|done].
  destruct (calculate_source kd o s1) as [s2|] eqn:E2; [|done].
  destruct (aggregate_items_latest s BASIC_KEYS o s1 acc basic_nodup lc_in_basic
              (proj2 Ho) Hlc Hla E1) as [H1 H2].
  apply (IH s2 (latest_step acc o) Hall); [| |exact H].
  - rewrite (calculate_source_frame _ _ _ _ _ E2); [done|apply lc_not_src].
  - rewrite (calculate_source_frame _ _ _ _ _ E2); [done|apply la_not_src].
Qed.

Lemma aggregate_objects_src kd (s : record) objs s' key a :
  is_parent kd = true -> key ∈ SRC ->
  s !! key = Some (VInt a) -> aggregate_objects kd s objs = Some s' ->
  s' !! key = Some (VInt (a + sum_key objs key)).
Proof.
  intros Hp Hk. revert s a.
  induction objs as [|o rest IH]; intros s a Ha H; cbn [aggregate_objects aggregate_categories] in H.
  - simplify_eq. simpl. by rewrite Z.add_0_r.
  - destruct (aggregate_items s BASIC_KEYS o) as [s1|] eqn:E1; [|done].
    destruct (calculate_source kd o s1) as [s2|] eqn:E2; [|done].
    assert (Hs1 : s1 !! key = s !! key).
    { eapply aggregate_items_frame; [exact E1| |].
      - by apply (proj1 (Forall_forall _ _) src_not_basic).
      - intros _ ->. by apply la_not_src. }
    destruct (calculate_source_parent kd o s1 s2 key Hp Hk E2) as (a' & Ha' & Hs2).
    rewrite Hs1, Ha in Ha'. injection Ha' as <-.
    rewrite (IH s2 _ Hs2 H). simpl. f_equal. f_equal. lia.
Qed.

Lemma aggregate_categories_ok (s : record) cats :
  stats_wf s -> Forall child_wf cats ->
  exists s', aggregate_categories s cats = Some s' /\ stats_wf s'.
Proof.
  revert s. induction cats as [|c rest IH]; intros s Hs Hall;
    cbn [aggregate_objects aggregate_categories]; [eauto|].
  apply Forall_cons in Hall as [Hc Hall].
  destruct (aggregate_items_ok s SOURCE_KEYS c source_in_source Hs Hc) as (s1 & -> & Hs1).
  auto.
Qed.

Lemma aggregate_categories_num (s : record) cats s' k a :
  k ∈ SOURCE_KEYS -> k <> LC -> k <> LA ->
  s !! k = Some (VInt a) -> aggregate_categories s cats = Some s' ->
  s' !! k = Some (VInt (a + sum_key cats k)).
Proof.
  intros Hk Hlc Hla. revert s a.
  induction cats as [|c rest IH]; intros s a Ha H; cbn [aggregate_objects aggregate_categories] in H.
  - simplify_eq. simpl. by rewrite Z.add_0_r.
  - destruct (aggregate_items s SOURCE_KEYS c) as [s1|] eqn:E1; [|done].
    assert (Hts : k <> TS) by (intros ->; by apply ts_not_source).
    destruct (aggregate_items_num s SOURCE_KEYS c s1 k source_nodup Hk Hts Hlc Hla E1)
      as (a' & Ha' & Hs1).
    rewrite Ha in Ha'. injection Ha' as <-.
    rewrite (IH s1 _ Hs1 H). simpl. f_equal. f_equal. lia.
Qed.

Lemma aggregate_categories_latest (s : record) cats s' acc :
  Forall child_wf cats ->
  s !! LC = Some (lc_of acc) -> s !! LA = Some (la_of acc) ->
  aggregate_categories s cats = Some s' ->
  s' !! LC = Some (lc_of (latest acc cats)) /\
  s' !! LA = Some (la_of (latest acc cats)).
Proof.
  revert s acc. induction cats as [|c rest IH]; intros s acc Hall Hlc Hla H;
    cbn [aggregate_objects aggregate_categories] in H; [by simplify_eq|].
  apply Forall_cons in Hall as [Hc Hall].
  destruct (aggregate_items s SOURCE_KEYS c) as [s1|] eqn:E1; [|done].
  destruct (aggregate_items_latest s SOURCE_KEYS c s1 acc source_nodup lc_in_source
              (proj2 Hc) Hlc Hla E1) as [H1 H2].
  exact (IH s1 (latest_step acc c) Hall H1 H2 H).
Qed.

(** ** [store_pairs] and [zero_stats] *)

Lemma store_value_last k v : startswith k "last_" = true -> store_value k v = v.
Proof. intros H. destruct v; simpl; try done. by rewrite H. Qed.

Lemma store_value_int k n : store_value k (VInt n) = VInt n.
Proof. done. Qed.

Lemma store_pairs_notin (l : list (string * value)) (d : record) k :
  k ∉ l.*1 -> store_pairs l d !! k = d !! k.
Proof.
  unfold store_pairs. revert d.
  induction l as [|[k' v'] rest IH]; intros d Hk; simpl; [done|].
  apply not_elem_of_cons in Hk as [Hk Hrest]. simpl in Hk.
  rewrite (IH _ Hrest). unfold store. by rewrite lookup_insert_ne.
Qed.

Lemma store_pairs_in (l : list (string * value)) (d : record) k v :
  NoDup l.*1 -> (k, v) ∈ l -> store_pairs l d !! k = Some (store_value k v).
Proof.
  revert d. induction l as [|[k' v'] rest IH]; intros d Hnd Hin; [set_solver|].
  apply NoDup_cons in Hnd as [Hk' Hnd]. simpl in Hk'.
  apply elem_of_cons in Hin as [Heq | Hin].
  - injection Heq as <- <-. unfold store_pairs. simpl.
    fold (store_pairs rest (store k v d)).
    rewrite store_pairs_notin; [|done]. unfold store. by rewrite lookup_insert_eq.
  - unfold store_pairs. simpl. fold (store_pairs rest (store k' v' d)). auto.
Qed.

Lemma store_pairs_map (s d : record) k v :
  s !! k = Some v -> store_pairs (map_to_list s) d !! k = Some (store_value k v).
Proof.
  intros H. apply store_pairs_in; [apply NoDup_fst_map_to_list|].
  by apply elem_of_map_to_list.
Qed.

Lemma zero_map_lookup (keys : list string) k :
  k ∈ keys -> (list_to_map (map (fun k => (k, VInt 0)) keys) : record) !! k = Some (VInt 0).
Proof.
  induction keys as [|k' rest IH]; intros Hk; [set_solver|].
  simpl. destruct (decide (k' = k)) as [->|Hne].
  - by rewrite lookup_insert_eq.
  - rewrite lookup_insert_ne; [|done]. apply IH. set_solver.
Qed.

Lemma zero_stats_num k :
  k ∈ SOURCE_KEYS -> k <> LC -> k <> LA -> zero_stats SOURCE_KEYS !! k = Some (VInt 0).
Proof.
  intros Hk H1 H2. unfold zero_stats.
  assert (k <> TS) by (intros ->; by apply ts_not_source).
  rewrite !lookup_insert_ne; [|congruence..]. by apply zero_map_lookup.
Qed.

Lemma zero_stats_lc : zero_stats SOURCE_KEYS !! LC = Some VNone.
Proof. reflexivity. Qed.

Lemma zero_stats_la : zero_stats SOURCE_KEYS !! LA = Some VNone.
Proof. reflexivity. Qed.

Lemma zero_stats_ts : zero_stats SOURCE_KEYS !! TS = Some (VInt 0).
Proof. reflexivity. Qed.

Lemma zero_stats_wf : stats_wf (zero_stats SOURCE_KEYS).
Proof. split; [intros; eexists; by apply zero_stats_num | left; done]. Qed.

Lemma prefetch_source_frame kd (d : record) k :
  k ∉ SRC -> prefetch_source kd d !! k = d !! k.
Proof.
  intros Hk. unfold SRC in Hk.
  destruct kd as [| |[st|]| | | |]; simpl; try done; unfold store;
    rewrite !lookup_insert_ne; set_solver.
Qed.

Lemma store_languages_frame kd (d : record) k :
  k <> "languages"%string -> store_languages kd d !! k = d !! k.
Proof.
  intros Hk. destruct kd; simpl; try done; unfold store; by rewrite lookup_insert_ne.
Qed.

(** Running an aggregating node: both loops succeed on well formed
    children and the final dictionary is assembled as the code does. *)
Lemma agg_calculate_run (n : agg_node) now (d : record) :
  Forall child_wf (object_set n) -> Forall child_wf (category_set n) ->
  exists s1 s2,
    aggregate_objects (kind n) (zero_stats SOURCE_KEYS) (object_set n) = Some s1 /\
    aggregate_categories s1 (category_set n) = Some s2 /\
    agg_calculate n now d =
      Some (store "stats_timestamp" (VInt now)
              (store_languages (kind n)
                 (prefetch_source (kind n) (store_pairs (map_to_list s2) d)))).
Proof.
  intros Ho Hc.
  destruct (aggregate_objects_ok (kind n) _ _ zero_stats_wf Ho) as (s1 & E1 & Hs1).
  destruct (aggregate_categories_ok _ _ Hs1 Hc) as (s2 & E2 & Hs2).
  exists s1, s2. split; [done|]. split; [done|].
  unfold agg_calculate, agg_calculate_basic. by rewrite E1, E2.
Qed.

Lemma latest_app acc (l1 l2 : list child) :
  latest acc (l1 ++ l2) = latest (latest acc l1) l2.
Proof. unfold latest. apply fold_left_app. Qed.

(** The child [latest] picks: the first one carrying the greatest
    [last_changed]. *)
Lemma latest_spec (cs : list child) :
  match latest None cs with
  | None => forall c, c ∈ cs -> forall t, c LC <> VTime t
  | Some (t, a) =>
      (exists c, c ∈ cs /\ c LC = VTime t /\ c LA = a) /\
      (forall c, c ∈ cs -> forall t', c LC = VTime t' -> t' <= t)
  end.
Proof.
  induction cs as [|c cs IH] using rev_ind; [simpl; set_solver|].
  rewrite latest_app. cbn [latest fold_left]. unfold latest_step at 1.
  destruct (latest None cs) as [[t a]|] eqn:E.
  - destruct IH as [(c0 & Hc0 & Ht0 & Ha0) Hmax].
    destruct (c LC) as [n| |t1] eqn:Ec.
    + split; [exists c0; set_solver|].
      intros c' Hc' t' Ht'. apply elem_of_app in Hc' as [Hc' | Hc'%list_elem_of_singleton];
        [eauto| subst; congruence].
    + split; [exists c0; set_solver|].
      intros c' Hc' t' Ht'. apply elem_of_app in Hc' as [Hc' | Hc'%list_elem_of_singleton];
        [eauto| subst; congruence].
    + destruct (t <? t1) eqn:Hlt.
      * apply Z.ltb_lt in Hlt. split; [exists c; set_solver|].
        intros c' Hc' t' Ht'. apply elem_of_app in Hc' as [Hc' | Hc'%list_elem_of_singleton].
        -- specialize (Hmax c' Hc' t' Ht'). lia.
        -- subst. rewrite Ec in Ht'. injection Ht' as ->. lia.
      * apply Z.ltb_ge in Hlt. split; [exists c0; set_solver|].
        intros c' Hc' t' Ht'. apply elem_of_app in Hc' as [Hc' | Hc'%list_elem_of_singleton].
        -- eauto.
        -- subst. rewrite Ec in Ht'. injection Ht' as ->. lia.
  - destruct (c LC) as [n| |t1] eqn:Ec.
    + intros c' Hc' t'. apply elem_of_app in Hc' as [Hc' | Hc'%list_elem_of_singleton];
        [eauto| subst; congruence].
    + intros c' Hc' t'. apply elem_of_app in Hc' as [Hc' | Hc'%list_elem_of_singleton];
        [eauto| subst; congruence].
    + split; [exists c; set_solver|].
      intros c' Hc' t' Ht'. apply elem_of_app in Hc' as [Hc' | Hc'%list_elem_of_singleton].
      * exfalso. by apply (IH c' Hc' t').
      * subst. rewrite Ec in Ht'. injection Ht' as ->. lia.
Qed.

Lemma child_wfb_wf (c : child) : child_wfb c = true -> child_wf c.
Proof.
  unfold child_wfb. intros [Hall Hlc]%andb_prop. split.
  - intros k Hk H1 H2. rewrite forallb_forall in Hall.
    specialize (Hall k (proj1 (list_elem_of_In _ _) Hk)).
    apply String.eqb_neq in H1. apply String.eqb_neq in H2.
    rewrite H1, H2 in Hall. simpl in Hall.
    destruct (c k); try done. eauto.
  - destruct (c LC); try done; eauto.
Qed.

Lemma forallb_child_wf (cs : list child) :
  forallb child_wfb cs = true -> Forall child_wf cs.
Proof.
  intros H. apply Forall_forall. intros c Hc. apply child_wfb_wf.
  rewrite forallb_forall in H. apply H. by apply list_elem_of_In.
Qed.

Lemma agg_final_lookup kd (s2 d : record) now k v :
  k <> TS -> k <> "languages"%string -> k ∉ SRC -> s2 !! k = Some v ->
  store "stats_timestamp" (VInt now)
    (store_languages kd (prefetch_source kd (store_pairs (map_to_list s2) d))) !! k
  = Some (store_value k v).
Proof.
  intros H1 H2 H3 H4. unfold store at 1. rewrite lookup_insert_ne; [|congruence].
  rewrite store_languages_frame; [|done]. rewrite prefetch_source_frame; [|done].
  by apply store_pairs_map.
Qed.

Lemma agg_final_ts kd (s2 d : record) now :
  store "stats_timestamp" (VInt now)
    (store_languages kd (prefetch_source kd (store_pairs (map_to_list s2) d))) !! TS
  = Some (VInt now).
Proof. unfold store at 1. by rewrite lookup_insert_eq. Qed.

(** ** C1: aggregation of the basic keys *)

(** C1 (amended). After [calculate_basic] of an aggregating node, every
    basic key other than [languages], [last_changed] and [last_author]
    holds the sum of that key over [object_set] and [category_set];
    [last_changed]/[last_author] come from the child with the most recent
    [last_changed] ([None] when no child has one); [stats_timestamp] is the
    node's own [monotonic()] reading, whatever the children's timestamps. *)
Theorem aggregating_basic_keys (n : agg_node) (now : Z) (d : record) :
  forallb child_wfb (object_set n) = true ->
  forallb child_wfb (category_set n) = true ->
  exists d', agg_calculate n now d = Some d' /\
    (forall k, k ∈ BASIC_KEYS -> k <> "languages"%string -> k <> LC -> k <> LA ->
       d' !! k = Some (VInt (sum_key (object_set n) k + sum_key (category_set n) k))) /\
    (((forall c, c ∈ object_set n ++ category_set n -> forall t, c LC <> VTime t) /\
      d' !! LC = Some VNone /\ d' !! LA = Some VNone) \/
     (exists c t, c ∈ object_set n ++ category_set n /\ c LC = VTime t /\
        d' !! LC = Some (VTime t) /\ d' !! LA = Some (c LA) /\
        forall c', c' ∈ object_set n ++ category_set n ->
          forall t', c' LC = VTime t' -> t' <= t)) /\
    d' !! TS = Some (VInt now).
Proof.
  intros Ho%forallb_child_wf Hc%forallb_child_wf.
  destruct (agg_calculate_run n now d Ho Hc) as (s1 & s2 & E1 & E2 & E).
  eexists; split; [exact E|]. split; [|split].
  - intros k Hk Hl H1 H2.
    assert (Hks : k ∈ SOURCE_KEYS)
      by (by apply (proj1 (Forall_forall _ _) basic_in_source)).
    assert (Hts : k <> TS) by (intros ->; by apply ts_not_basic).
    assert (Hsrc : k ∉ SRC) by (by apply (proj1 (Forall_forall _ _) basic_not_src)).
    pose proof (aggregate_objects_num _ _ _ _ k 0 Hk H1 H2 (zero_stats_num k Hks H1 H2) E1)
      as Hs1.
    pose proof (aggregate_categories_num _ _ _ k _ Hks H1 H2 Hs1 E2) as Hs2.
    rewrite (agg_final_lookup _ _ _ _ _ _ Hts Hl Hsrc Hs2). simpl. f_equal.
  - destruct (aggregate_objects_latest _ _ _ _ None Ho zero_stats_lc zero_stats_la E1)
      as [Hl1 Ha1].
    destruct (aggregate_categories_latest _ _ _ _ Hc Hl1 Ha1 E2) as [Hl2 Ha2].
    rewrite <- latest_app in Hl2, Ha2.
    rewrite (agg_final_lookup _ _ _ _ LC _ ltac:(discriminate) ltac:(discriminate)
              lc_not_src Hl2).
    rewrite (agg_final_lookup _ _ _ _ LA _ ltac:(discriminate) ltac:(discriminate)
              la_not_src Ha2).
    rewrite !store_value_last; [|done..].
    pose proof (latest_spec (object_set n ++ category_set n)) as Hspec.
    destruct (latest None (object_set n ++ category_set n)) as [[t a]|].
    + right. destruct Hspec as [(c & Hin & Hct & Hca) Hmax].
      exists c, t. subst a. repeat split; auto.
    + left. auto.
  - apply agg_final_ts.
Qed.

(** C1 counterexample: the category is computed at clock 5 over a child
    stamped 10; its [stats_timestamp] is 5, not [max 5 10]. *)
Lemma aggregating_timestamp_not_max :
  ts_child TS = VInt 10 /\
  (agg_calculate ts_node 5 ∅ ≫= fun d => d !! TS) = Some (VInt 5) /\
  (agg_calculate ts_node 5 ∅ ≫= fun d => d !! TS)
    <> Some (VInt (Z.max 5 (vint (ts_child TS)))).
Proof.
  split; [reflexivity|]. split; [vm_compute; reflexivity|].
  vm_compute. congruence.
Qed.

(** An instance of [aggregating_basic_keys] on [ts_node]. *)
Lemma aggregating_basic_keys_witness :
  forallb child_wfb (object_set ts_node) = true /\
  forallb child_wfb (category_set ts_node) = true /\
  exists d', agg_calculate ts_node 5 ∅ = Some d' /\ d' !! "all"%string = Some (VInt 2).
Proof.
  split; [vm_compute; reflexivity|]. split; [vm_compute; reflexivity|].
  destruct (aggregating_basic_keys ts_node 5 ∅) as (d' & E & Hsum & _);
    [vm_compute; reflexivity|vm_compute; reflexivity|].
  exists d'. split; [exact E|]. rewrite Hsum; [reflexivity|decide_list|discriminate..].
Defined.

(** ** C5: [source_*] keys *)

Lemma prefetch_source_parent kd (d : record) :
  is_parent kd = true -> prefetch_source kd d = d.
Proof. destruct kd; done. Qed.

Lemma src_facts key : key ∈ SRC ->
  key ∈ SOURCE_KEYS /\ key <> LC /\ key <> LA /\ key <> TS /\ key <> "languages"%string.
Proof.
  intros Hk. unfold SRC in Hk.
  repeat (apply elem_of_cons in Hk as [-> | Hk];
          [repeat split; [decide_list|discriminate..]|]).
  by apply elem_of_nil in Hk.
Qed.

(** C5. A component copies [source_strings]/[source_words]/[source_chars]
    from the [all]/[all_words]/[all_chars] of its source translation,
    whatever its translations hold; a category, component list, project or
    the global node sums the [source_*] keys of its children. *)
Theorem source_keys_by_kind :
  (forall (st : child) (objs cats : list child) now (d : record),
     child_wfb st = true -> forallb child_wfb objs = true ->
     forallb child_wfb cats = true ->
     exists d',
       agg_calculate {| kind := KComponent (Some st); object_set := objs;
                        category_set := cats |} now d = Some d' /\
       d' !! "source_strings"%string = Some (st "all"%string) /\
       d' !! "source_words"%string = Some (st "all_words"%string) /\
       d' !! "source_chars"%string = Some (st "all_chars"%string)) /\
  (forall (n : agg_node) now (d : record),
     is_parent (kind n) = true ->
     forallb child_wfb (object_set n) = true ->
     forallb child_wfb (category_set n) = true ->
     exists d', agg_calculate n now d = Some d' /\
       forall key, key ∈ SRC ->
         d' !! key = Some (VInt (sum_key (object_set n) key + sum_key (category_set n) key))).
Proof.
  split.
  - intros st objs cats now d Hst%child_wfb_wf Ho%forallb_child_wf Hc%forallb_child_wf.
    destruct (agg_calculate_run {| kind := KComponent (Some st); object_set := objs;
                                   category_set := cats |} now d Ho Hc)
      as (s1 & s2 & _ & _ & E).
    eexists; split; [exact E|].
    destruct Hst as [Snum _].
    destruct (Snum "all"%string) as [b1 Hb1]; [decide_list|discriminate..|].
    destruct (Snum "all_words"%string) as [b2 Hb2]; [decide_list|discriminate..|].
    destruct (Snum "all_chars"%string) as [b3 Hb3]; [decide_list|discriminate..|].
    rewrite Hb1, Hb2, Hb3. cbn [kind store_languages prefetch_source].
    unfold store. rewrite Hb1, Hb2, Hb3.
    repeat split.
    + rewrite lookup_insert_ne by discriminate. by rewrite lookup_insert_eq.
    + do 2 rewrite lookup_insert_ne by discriminate. by rewrite lookup_insert_eq.
    + do 3 rewrite lookup_insert_ne by discriminate. by rewrite lookup_insert_eq.
  - intros n now d Hp Ho%forallb_child_wf Hc%forallb_child_wf.
    destruct (agg_calculate_run n now d Ho Hc) as (s1 & s2 & E1 & E2 & E).
    eexists; split; [exact E|].
    intros key Hk. destruct (src_facts key Hk) as (Hks & H1 & H2 & Hts & Hl).
    pose proof (aggregate_objects_src _ _ _ _ key 0 Hp Hk (zero_stats_num key Hks H1 H2) E1)
      as Hs1.
    pose proof (aggregate_categories_num _ _ _ key _ Hks H1 H2 Hs1 E2) as Hs2.
    unfold store at 1. rewrite lookup_insert_ne; [|congruence].
    rewrite store_languages_frame; [|done]. rewrite prefetch_source_parent; [|done].
    rewrite (store_pairs_map _ _ _ _ Hs2). done.
Qed.

(** An instance of [source_keys_by_kind]: the component of the spec's
    scenario copies 20 source strings from its source translation. *)
Lemma source_keys_by_kind_witness :
  child_wfb (tr_child 20 100) = true /\
  forallb child_wfb [tr_child 20 100; tr_child 20 100] = true /\
  exists d', agg_calculate {| kind := KComponent (Some (tr_child 20 100));
                              object_set := [tr_child 20 100; tr_child 20 100];
                              category_set := [] |} 1 ∅ = Some d' /\
    d' !! "source_strings"%string = Some (VInt 20) /\ d' !! "all"%string = Some (VInt 40).
Proof.
  split; [vm_compute; reflexivity|]. split; [vm_compute; reflexivity|].
  destruct (proj1 source_keys_by_kind (tr_child 20 100) [tr_child 20 100; tr_child 20 100]
              [] 1 ∅) as (d' & E & Hs & _);
    [vm_compute; reflexivity..|].
  exists d'. split; [exact E|]. split; [exact Hs|].
  assert (Hall : (agg_calculate {| kind := KComponent (Some (tr_child 20 100));
                                  object_set := [tr_child 20 100; tr_child 20 100];
                                  category_set := [] |} 1 ∅
                   ≫= fun d => d !! "all"%string) = Some (VInt 40))
    by (vm_compute; reflexivity).
  rewrite E in Hall. exact Hall.
Defined.

(** ** C6: [languages] at project and global level *)

Lemma distinct_languages_size (langs : list Z) :
  length (distinct_languages langs) = size (list_to_set langs : gset Z).
Proof.
  unfold distinct_languages.
  rewrite <- (size_list_to_set (C := gset Z) (remove_dups langs)); [|apply NoDup_remove_dups].
  f_equal. apply leibniz_equiv. intros x.
  rewrite !elem_of_list_to_set, elem_of_remove_dups. done.
Qed.

(** C6 (spec-modelled). A project or the global node stores as [languages]
    the number of distinct languages among its descendants' translations,
    whatever [languages] its children hold. *)
Theorem project_global_languages (n : agg_node) (langs : list Z) now (d : record) :
  (kind n = KProject langs \/ kind n = KGlobal langs) ->
  forallb child_wfb (object_set n) = true ->
  forallb child_wfb (category_set n) = true ->
  exists d', agg_calculate n now d = Some d' /\
    d' !! "languages"%string = Some (VInt (Z.of_nat (size (list_to_set langs : gset Z)))).
Proof.
  intros Hk Ho%forallb_child_wf Hc%forallb_child_wf.
  destruct (agg_calculate_run n now d Ho Hc) as (s1 & s2 & _ & _ & E).
  eexists; split; [exact E|].
  unfold store at 1. rewrite lookup_insert_ne by discriminate.
  rewrite <- distinct_languages_size.
  destruct Hk as [-> | ->]; simpl; unfold store; by rewrite lookup_insert_eq.
Qed.

(** An instance of [project_global_languages]: the project counts two
    languages, where summing its children would give four. *)
Lemma project_global_languages_witness :
  forallb child_wfb (object_set lang_project) = true /\
  forallb child_wfb (category_set lang_project) = true /\
  sum_key (object_set lang_project) "languages" = 4 /\
  exists d', agg_calculate lang_project 1 ∅ = Some d' /\
    d' !! "languages"%string = Some (VInt 2).
Proof.
  split; [vm_compute; reflexivity|]. split; [vm_compute; reflexivity|].
  split; [vm_compute; reflexivity|].
  destruct (project_global_languages lang_project [1; 2; 1; 2] 1 ∅) as (d' & E & H);
    [left; reflexivity|vm_compute; reflexivity..|].
  exists d'. split; [exact E|]. rewrite H. reflexivity.
Defined.

(** ** C2: percentages *)

Lemma substring_0_ge (s : string) (m : nat) :
  (String.length s <= m)%nat -> substring 0 m s = s.
Proof.
  revert m. induction s as [|a s IH]; intros m Hm; destruct m; simpl in *; try done.
  - lia.
  - f_equal. apply IH. lia.
Qed.

Lemma substring_split (s : string) (n : nat) :
  substring 0 n s +:+ substring n (String.length s - n) s = s.
Proof.
  revert n. induction s as [|a s IH]; intros n; destruct n; simpl; try done.
  - rewrite substring_0_ge; [done|lia].
  - change (String a (substring 0 n s +:+ substring n (String.length s - n) s)
            = String a s). by rewrite IH.
Qed.

Lemma endswith_split (s suf : string) :
  endswith s suf = true ->
  substring 0 (String.length s - String.length suf) s +:+ suf = s.
Proof.
  unfold endswith. intros H%String.eqb_eq.
  destruct (decide (String.length suf <= String.length s)%nat) as [Hle|Hgt].
  - pose proof (substring_split s (String.length s - String.length suf)) as E.
    replace (String.length s - (String.length s - String.length suf))%nat
      with (String.length suf) in E by lia.
    by rewrite H in E.
  - replace (String.length s - String.length suf)%nat with 0%nat in H by lia.
    rewrite substring_0_ge in H; [|lia]. subst. lia.
Qed.

(** C2 (spec-modelled). For a name ending in ["_percent"],
    [calculate_percent] strips the suffix to the antecedent key, divides by
    [all_words], [all_chars] or [all] as the antecedent ends in ["_words"],
    ["_chars"] or neither, takes [zero_complete] as membership in the
    approved keys (review workflow) or the translated keys (otherwise), and
    returns 100 or 0 on a zero denominator, the unclamped ratio times 100
    otherwise. *)
Theorem calculate_percent_spec (has_review : bool) (get : string -> Z) (item : string) :
  endswith item "_percent" = true ->
  percent_base item +:+ "_percent" = item /\
  calculate_percent has_review get item =
    (let base := percent_base item in
     let total := get (if endswith base "_words" then "all_words"
                       else if endswith base "_chars" then "all_chars"
                       else "all") in
     let zero_complete :=
       if has_review then bool_decide (base ∈ ["approved"; "approved_words"; "approved_chars"])
       else bool_decide (base ∈ ["translated"; "translated_words"; "translated_chars"]) in
     if total =? 0 then (if zero_complete then 100 else 0)
     else inject_Z (get base) / inject_Z total * 100)%Q.
Proof.
  intros H. split.
  - unfold percent_base. exact (endswith_split item "_percent" H).
  - unfold calculate_percent, translation_percent, percent_total_key, completed.
    destruct has_review; reflexivity.
Qed.

(** An instance of [calculate_percent_spec]: the scenario's
    [approved_percent] is 40 and [approved_words_percent], over zero words
    with review enabled, is 100. *)
Lemma calculate_percent_spec_witness :
  endswith "approved_percent" "_percent" = true /\
  percent_base "approved_percent" = "approved"%string /\
  (calculate_percent true scenario_get "approved_percent" == 40)%Q /\
  calculate_percent true scenario_get "approved_words_percent" = 100%Q.
Proof.
  split; [reflexivity|]. split; [reflexivity|]. split.
  - rewrite (proj2 (calculate_percent_spec true scenario_get "approved_percent" eq_refl)).
    vm_compute. reflexivity.
  - rewrite (proj2 (calculate_percent_spec true scenario_get "approved_words_percent"
                      eq_refl)).
    vm_compute. reflexivity.
Defined.

(** ** C8: [update_parents] *)

Lemma dict_set_keys (d : list (string * stat_ref)) k v :
  (dict_set d k v).*1 = dedup_step d.*1 k.
Proof.
  unfold dedup_step. induction d as [|[k' v'] rest IH].
  - reflexivity.
  - cbn [dict_set]. rewrite fmap_cons. cbn [fst].
    destruct (String.eqb k k') eqn:E;
      [apply String.eqb_eq in E as ->|apply String.eqb_neq in E];
      rewrite fmap_cons; cbn [fst].
    + clear IH. case_decide as Hk; [done|]. exfalso. apply Hk. apply elem_of_cons. by left.
    + rewrite IH. clear IH. case_decide as Hk; case_decide as Hk'; try done.
      * exfalso. apply Hk'. apply elem_of_cons. by right.
      * exfalso. apply elem_of_cons in Hk' as [?|?]; [done|]. by apply Hk.
Qed.

Lemma dict_set_inv (P : string * stat_ref -> Prop) (d : list (string * stat_ref)) k v :
  Forall P d -> P (k, v) -> Forall P (dict_set d k v).
Proof.
  induction d as [|[k' v'] rest IH]; intros Hd Hp; simpl; [by constructor|].
  apply Forall_cons in Hd as [H1 H2].
  destruct (String.eqb_spec k k'); constructor; auto.
Qed.

Lemma stat_objects_fold_keys (l : list stat_ref) d :
  (fold_left (fun d st => dict_set d (cache_key st) st) l d).*1
  = fold_left dedup_step (map cache_key l) d.*1.
Proof.
  revert d. induction l as [|st rest IH]; intros d; simpl; [done|].
  rewrite IH. by rewrite dict_set_keys.
Qed.

Lemma stat_objects_fold_inv (P : string * stat_ref -> Prop) (l : list stat_ref) d :
  Forall (fun st => P (cache_key st, st)) l -> Forall P d ->
  Forall P (fold_left (fun d st => dict_set d (cache_key st) st) l d).
Proof.
  revert d. induction l as [|st rest IH]; intros d Hl Hd; simpl; [done|].
  apply Forall_cons in Hl as [H1 H2]. apply IH; [done|].
  by apply dict_set_inv.
Qed.

Lemma dedup_fold_nodup (l acc : list string) :
  NoDup acc -> NoDup (fold_left dedup_step l acc).
Proof.
  revert acc. induction l as [|k rest IH]; intros acc Hacc; simpl; [done|].
  apply IH. unfold dedup_step. case_decide; [done|].
  apply NoDup_app. split; [done|]. split; [set_solver|].
  apply NoDup_singleton.
Qed.

Lemma dedup_fold_elem (l acc : list string) k :
  k ∈ fold_left dedup_step l acc <-> k ∈ acc \/ k ∈ l.
Proof.
  revert acc. induction l as [|k' rest IH]; intros acc; simpl; [set_solver|].
  rewrite IH. unfold dedup_step. case_decide; set_solver.
Qed.

Lemma keyed_fst (l : list (string * stat_ref)) :
  Forall (fun p : string * stat_ref => p.1 = cache_key p.2) l ->
  cache_key <$> l.*2 = l.*1.
Proof.
  induction 1 as [|[k st] rest Hk _ IH]; [done|].
  rewrite !fmap_cons. cbn [map fst snd] in *. by rewrite IH, Hk.
Qed.

Lemma stat_objects_keys_match (objs extra : list stat_ref) :
  cache_key <$> (stat_objects objs extra).*2 = (stat_objects objs extra).*1.
Proof.
  apply keyed_fst. apply stat_objects_fold_inv; [|done]. by apply Forall_forall.
Qed.

Lemma stat_objects_from (objs extra : list stat_ref) st :
  st ∈ (stat_objects objs extra).*2 -> st ∈ objs ++ extra.
Proof.
  intros Hst. apply list_elem_of_fmap in Hst as [[k st'] [-> Hp]].
  assert (Hinv : Forall (fun p : string * stat_ref => p.2 ∈ objs ++ extra)
                   (stat_objects objs extra)).
  { apply stat_objects_fold_inv; [|done]. by apply Forall_forall. }
  rewrite Forall_forall in Hinv. exact (Hinv _ Hp).
Qed.

(** C8 (amended): [update_parents] gathers the stats objects once, keyed
    by [cache_key] in order of first occurrence (a later object with the
    same key replaces the value in place), and runs [update_stats()] on
    exactly those whose persisted [stats_timestamp] is older than the
    leaf's, or on all of them when the leaf's [stats_timestamp] is 0. *)
Theorem update_parents_dedup_and_skip (leaf_ts : Z) (objs extra : list stat_ref) :
  cache_key <$> (stat_objects objs extra).*2 = dedup_first (cache_key <$> objs ++ extra) /\
  NoDup (cache_key <$> (stat_objects objs extra).*2) /\
  (forall st, st ∈ (stat_objects objs extra).*2 -> st ∈ objs ++ extra) /\
  (forall k, k ∈ cache_key <$> (stat_objects objs extra).*2 <-> k ∈ cache_key <$> objs ++ extra) /\
  update_parents leaf_ts objs extra =
    filter (fun st => leaf_ts = 0 \/ stamp st < leaf_ts)
      (stat_objects objs extra).*2.
Proof.
  assert (Hkeys : cache_key <$> (stat_objects objs extra).*2
                  = dedup_first (cache_key <$> objs ++ extra)).
  { rewrite stat_objects_keys_match. unfold stat_objects, dedup_first.
    by rewrite stat_objects_fold_keys. }
  split; [done|]. split.
  { rewrite Hkeys. apply dedup_fold_nodup. constructor. }
  split; [apply stat_objects_from|]. split.
  { intros k. rewrite Hkeys. unfold dedup_first. rewrite dedup_fold_elem.
    split; [intros [Hk|Hk]; [by apply not_elem_of_nil in Hk|done]|by right]. }
  unfold update_parents. apply list_filter_iff. intros st.
  destruct (Z.eqb_spec leaf_ts 0) as [->|Hne]; simpl.
  - split; [by left|done].
  - destruct (Z.leb_spec leaf_ts (stamp st)); simpl.
    + split; [done|lia].
    + split; [lia|done].
Qed.

(** C8, counterexample: a leaf whose [stats_timestamp] reads 0 (nothing
    cached, as after a lazy [update_stats()]) recomputes an ancestor whose
    persisted [stats_timestamp] 5 is at least the leaf's. *)
Lemma update_parents_zero_leaf_ts :
  0 <= stamp project_ref /\ update_parents 0 [project_ref] [] = [project_ref].
Proof. split; [simpl; lia|reflexivity]. Qed.

(** ** The leaf computation and the lazy lookup *)

Module LeafFacts.
Import Lazy.

Lemma bind_ok {A B} (m : M A) (k : A -> M B) s a s' :
  m s = (inr a, s') -> (m ≫= k) s = k a s'.
Proof. intros H. unfold mbind, M_bind. by rewrite H. Qed.

Lemma bind_err {A B} (m : M A) (k : A -> M B) s e s' :
  m s = (inl e, s') -> (m ≫= k) s = (inl e, s').
Proof. intros H. unfold mbind, M_bind. by rewrite H. Qed.

Lemma set_data_data d s : data (set_data d s) = d.
Proof. done. Qed.

Lemma set_data_twice d d' s : set_data d (set_data d' s) = set_data d s.
Proof. by destruct s. Qed.

Lemma ensure_loaded_some s d : data s = Some d -> ensure_loaded s = (inr tt, s).
Proof. intros H. unfold ensure_loaded, gets. unfold mbind, M_bind. rewrite H. done. Qed.

Lemma current_data_some s d : data s = Some d -> current_data s = (inr d, s).
Proof. intros H. unfold current_data, gets. unfold mbind, M_bind. rewrite H. done. Qed.

Lemma store_run k v s d :
  data s = Some d -> store k v s = (inr tt, set_data (Some (store_dict k v d)) s).
Proof.
  intros H. unfold store.
  rewrite (bind_ok _ _ _ _ _ (ensure_loaded_some _ _ H)).
  rewrite (bind_ok _ _ _ _ _ (current_data_some _ _ H)). done.
Qed.

Lemma store_each_run l s d :
  data s = Some d -> store_each l s = (inr tt, set_data (Some (store_pairs l d)) s).
Proof.
  revert s d. induction l as [|[k v] rest IH]; intros s d H; simpl.
  - by destruct s; simpl in *; subst.
  - rewrite (bind_ok _ _ _ _ _ (store_run k v s d H)).
    rewrite (IH _ _ (set_data_data _ _)). by rewrite set_data_twice.
Qed.

Lemma getattr_hit calc hr f name s d v :
  startswith name "_" = false -> endswith name "_percent" = false ->
  name <> "stats_timestamp"%string ->
  data s = Some d -> d !! name = Some v ->
  getattr calc hr (S f) name s = (inr (AVal v), s).
Proof.
  intros H1 H2 H3 Hd Hv. simpl. rewrite H1.
  rewrite (bind_ok _ _ _ _ _ (ensure_loaded_some _ _ Hd)). rewrite H2.
  destruct (String.eqb_spec name "stats_timestamp"); [done|].
  rewrite (bind_ok _ _ _ _ _ (current_data_some _ _ Hd)). rewrite Hv. done.
Qed.

Import Leaf Nodes.

Lemma fetch_last_change_run tr s d :
  data s = Some d ->
  fetch_last_change tr s = (inr tt, set_data (Some (fetch_last_change_record tr d)) s).
Proof.
  intros H. unfold fetch_last_change, fetch_last_change_record.
  destruct (last_change tr) as [[ts author]|].
  - rewrite (bind_ok _ _ _ _ _ (store_run _ _ _ _ H)).
    rewrite (store_run _ _ _ _ (set_data_data _ _)). by rewrite set_data_twice.
  - rewrite (bind_ok _ _ _ _ _ (store_run _ _ _ _ H)).
    rewrite (store_run _ _ _ _ (set_data_data _ _)). by rewrite set_data_twice.
Qed.

Lemma fetch_last_change_lc tr d :
  fetch_last_change_record tr d !! "last_changed"%string =
    Some (match last_change tr with Some (ts, _) => VTime ts | None => VNone end).
Proof.
  unfold fetch_last_change_record, store_dict.
  destruct (last_change tr) as [[ts author]|];
    (rewrite lookup_insert_ne by discriminate); by rewrite lookup_insert_eq.
Qed.

Lemma count_changes_run tr f s d :
  data s = Some d ->
  d !! "last_changed"%string = Some (match last_change tr with Some (ts, _) => VTime ts | None => VNone end) ->
  count_changes tr (stat tr (S f)) s = (inr tt, set_data (Some (count_changes_record tr d)) s).
Proof.
  intros H Hlc. unfold count_changes, count_changes_record, stat.
  rewrite (bind_ok _ _ _ _ _ (getattr_hit _ _ f "last_changed" s d _ eq_refl eq_refl
                                ltac:(discriminate) H Hlc)).
  destruct (last_change tr) as [[ts author]|]; simpl.
  - rewrite (bind_ok _ _ _ _ _ (store_run _ _ _ _ H)).
    rewrite (bind_ok _ _ _ _ _ (store_run _ _ _ _ (set_data_data _ _))).
    rewrite (store_run _ _ _ _ (set_data_data _ _)). by rewrite !set_data_twice.
  - rewrite (bind_ok _ _ _ _ _ (store_run _ _ _ _ H)).
    rewrite (bind_ok _ _ _ _ _ (store_run _ _ _ _ (set_data_data _ _))).
    rewrite (store_run _ _ _ _ (set_data_data _ _)). by rewrite !set_data_twice.
Qed.

Lemma calculate_basic__run tr f s d :
  data s = Some d ->
  calculate_basic_ tr (stat tr (S f)) s = (inr tt, set_data (Some (leaf_record tr d)) s).
Proof.
  intros H. unfold calculate_basic_, leaf_record.
  rewrite (bind_ok _ _ _ _ _ (store_each_run _ _ _ H)).
  rewrite (bind_ok _ _ _ _ _ (store_run _ _ _ _ (set_data_data _ _))).
  rewrite (bind_ok _ _ _ _ _ (fetch_last_change_run _ _ _ (set_data_data _ _))).
  rewrite (count_changes_run _ _ _ _ (set_data_data _ _) (fetch_last_change_lc _ _)).
  by rewrite !set_data_twice.
Qed.

Lemma save_run s :
  save s = (inr tt, mk_state (data s) (pending_save s) (Some (data s)) (saved s ++ [data s]) (clock s)).
Proof. done. Qed.

Lemma leaf_calculate_basic_run tr f s d :
  data s = Some d ->
  Lazy.calculate_basic (calculate_basic_ tr (stat tr (S f))) s =
    (inr tt, set_clock (clock s + 1)
               (set_data (Some (<["stats_timestamp" := VInt (clock s)]> (leaf_record tr d))) s)).
Proof.
  intros H. unfold Lazy.calculate_basic.
  rewrite (bind_ok _ _ _ _ _ (calculate_basic__run _ _ _ _ H)).
  unfold mbind at 1, M_bind at 1. simpl.
  rewrite (store_run _ _ _ (leaf_record tr d)); [|done]. by destruct s.
Qed.

Lemma update_stats_eager_run tr f s :
  Leaf.update_stats tr (S f) false s =
    (inr tt, mk_state (Some (eager_record tr (clock s))) (pending_save s)
               (Some (Some (eager_record tr (clock s))))
               (saved s ++ [Some (eager_record tr (clock s))]) (clock s + 1)).
Proof.
  unfold Leaf.update_stats, Lazy.update_stats, clear, modify.
  unfold mbind at 1, M_bind at 1.
  rewrite (bind_ok _ _ _ _ _ (leaf_calculate_basic_run _ _ _ ∅ (set_data_data _ _))).
  by destruct s.
Qed.


Lemma calculate_basic_calc_run calc (r : record) :
  (forall s', data s' = Some ∅ -> calc s' = (inr tt, set_data (Some r) s')) ->
  forall s, data s = Some ∅ ->
  Lazy.calculate_basic calc s =
    (inr tt, set_clock (clock s + 1)
               (set_data (Some (<["stats_timestamp" := VInt (clock s)]> r)) s)).
Proof.
  intros Hc s Hs. unfold Lazy.calculate_basic.
  rewrite (bind_ok _ _ _ _ _ (Hc s Hs)).
  unfold mbind at 1, M_bind at 1. simpl.
  rewrite (store_run _ _ _ r); [|done]. by destruct s.
Qed.



Lemma nocache_update_stats_eager calc (r : record) :
  (forall s', data s' = Some ∅ -> calc s' = (inr tt, set_data (Some r) s')) ->
  forall s, NoCache.update_stats false calc s =
    (inr tt, mk_state (Some (<["stats_timestamp" := VInt (clock s)]> r)) (pending_save s)
               (cache_entry s) (saved s) (clock s + 1)).
Proof.
  intros Hc s. unfold NoCache.update_stats, clear, modify.
  unfold mbind at 1, M_bind at 1.
  rewrite (bind_ok _ _ _ _ _ (calculate_basic_calc_run _ _ Hc _ (set_data_data _ _))).
  by destruct s.
Qed.





Lemma agg_calculate_basic__fail n s :
  agg_calculate_basic n ∅ = None -> AggNode.calculate_basic_ n s = (inl TypeError, s).
Proof.
  unfold agg_calculate_basic, AggNode.calculate_basic_. intros H.
  destruct (aggregate_objects (kind n) (zero_stats SOURCE_KEYS) (object_set n)) as [s1|];
    [|done].
  by destruct (aggregate_categories s1 (category_set n)).
Qed.

Lemma ghost_calculate_basic__run b s :
  data s = Some ∅ ->
  NoCache.ghost_calculate_basic_ b s =
    (inr tt, set_data (Some (store_pairs (map_to_list (NoCache.ghost_stats b)) ∅)) s).
Proof. apply store_each_run. Qed.

Lemma dummy_calculate_basic__run s :
  NoCache.dummy_calculate_basic_ s = (inr tt, set_data (Some (zero_stats BASIC_KEYS)) s).
Proof. reflexivity. Qed.



Lemma getattr_miss calc hr f name s d :
  startswith name "_" = false -> endswith name "_percent" = false ->
  name <> "stats_timestamp"%string ->
  data s = Some d -> d !! name = None ->
  getattr calc hr (S f) name s =
    (calc (getattr calc hr f) name ≫= fun _ => after_miss name (pending_save s))
      (set_pending true s).
Proof.
  intros H1 H2 H3 Hd Hv. simpl. rewrite H1.
  rewrite (bind_ok _ _ _ _ _ (ensure_loaded_some _ _ Hd)). rewrite H2.
  destruct (String.eqb_spec name "stats_timestamp"); [done|].
  rewrite (bind_ok _ _ _ _ _ (current_data_some _ _ Hd)). rewrite Hv. done.
Qed.

Lemma basic_keys_names :
  Forall (fun k => startswith k "_" = false /\ endswith k "_percent" = false /\
                   k <> "stats_timestamp"%string /\ startswith k "check:" = false /\
                   startswith k "label:" = false) BASIC_KEYS.
Proof. decide_list. Qed.

Lemma leaf_stats_nodup c us : NoDup (leaf_stats c us).*1.
Proof. decide_list. Qed.

Lemma basic_keys_leaf c us :
  Forall (fun k => k ∈ (leaf_stats c us).*1 \/
                   k ∈ ["languages"; "last_changed"; "last_author"; "recent_changes";
                        "monthly_changes"; "total_changes"]%string) BASIC_KEYS.
Proof. decide_list. Qed.

Lemma store_pairs_is_some (l : list (string * value)) (d : record) k :
  k ∈ l.*1 -> is_Some (store_pairs l d !! k).
Proof.
  revert d. induction l as [|[k' v] rest IH]; intros d Hk; [by apply not_elem_of_nil in Hk|].
  unfold store_pairs. simpl. fold (store_pairs rest (store_dict k' v d)).
  destruct (decide (k ∈ rest.*1)) as [Hin|Hnin]; [by apply IH|].
  rewrite store_pairs_notin by done.
  rewrite fmap_cons in Hk. apply elem_of_cons in Hk as [->|Hk]; [|done].
  unfold store_dict. rewrite lookup_insert_eq. by eexists.
Qed.

Lemma leaf_record_basic tr d k :
  k ∈ BASIC_KEYS -> is_Some (leaf_record tr d !! k).
Proof.
  intros Hk. pose proof (proj1 (Forall_forall _ _) (basic_keys_leaf (codes tr) (unit_set tr)) k Hk) as Hc.
  unfold leaf_record, count_changes_record, fetch_last_change_record, store_dict.
  destruct (last_change tr) as [[ts author]|];
    rewrite !lookup_insert_is_Some';
    (destruct Hc as [Hc|Hc];
     [do 6 right; by apply store_pairs_is_some
     |repeat (apply elem_of_cons in Hc as [Hc|Hc]; [subst; tauto|]);
      by apply not_elem_of_nil in Hc]).
Qed.

Lemma calculate_by_name_basic tr f name s d :
  name ∈ BASIC_KEYS -> data s = Some d ->
  calculate_by_name tr (stat tr (S f)) name s =
    (inr tt, mk_state (Some (<["stats_timestamp" := VInt (clock s)]> (leaf_record tr d)))
               (pending_save s)
               (Some (Some (<["stats_timestamp" := VInt (clock s)]> (leaf_record tr d))))
               (saved s ++ [Some (<["stats_timestamp" := VInt (clock s)]> (leaf_record tr d))])
               (clock s + 1)).
Proof.
  intros Hk Hd.
  destruct (proj1 (Forall_forall _ _) basic_keys_names name Hk) as (_ & _ & _ & Hc & Hl).
  unfold calculate_by_name. rewrite bool_decide_true by done.
  rewrite (bind_ok _ _ _ _ _ (bind_ok _ _ _ _ _ (leaf_calculate_basic_run _ _ _ _ Hd))).
  rewrite Hc, Hl. by destruct s.
Qed.

(** Reading a missing basic key from a loaded record runs
    [calculate_basic], after which [calculate_by_name] saves, and then the
    outermost miss saves again: the same record is appended twice when no
    save was pending, once when one was pending (a nested miss), and the
    pending flag is restored. *)
Theorem basic_miss_saves (tr : translation) (f : nat) (name : string) (s : stats_state) (d : record) :
  name ∈ BASIC_KEYS -> data s = Some d -> d !! name = None ->
  let d' := <["stats_timestamp" := VInt (clock s)]> (leaf_record tr d) in
  exists v, d' !! name = Some v /\
    Leaf.stat tr (S (S f)) name s =
      (inr (AVal v),
       mk_state (Some d') (pending_save s) (Some (Some d'))
         (saved s ++ (if pending_save s then [Some d'] else [Some d'; Some d']))
         (clock s + 1)).
Proof.
  intros Hk Hd Hn d'.
  destruct (proj1 (Forall_forall _ _) basic_keys_names name Hk) as (H1 & H2 & H3 & _ & _).
  destruct (leaf_record_basic tr d name Hk) as [v Hv].
  assert (Hv' : d' !! name = Some v) by (unfold d'; by rewrite lookup_insert_ne by congruence).
  exists v. split; [done|].
  unfold Leaf.stat at 1. rewrite (getattr_miss _ _ _ _ _ _ H1 H2 H3 Hd Hn).
  rewrite (bind_ok _ _ _ _ _ (calculate_by_name_basic tr f name (set_pending true s) d Hk Hd)).
  unfold after_miss.
  erewrite bind_ok; [|apply (current_data_some _ d'); reflexivity].
  change (clock (set_pending true s)) with (clock s). fold d'. rewrite Hv'.
  destruct s as [ds ps cs ss ks]; simpl.
  destruct ps; cbv [end_of_miss mbind M_bind mret M_ret save modify set_pending]; simpl;
    [done|by rewrite <- app_assoc].
Qed.

(** C9 (amended). For a name that is not a percent key and not
    [stats_timestamp], absent from the loaded record and left unset by
    [calculate_by_name], [__getattr__] fails: "Invalid stats" for a name
    starting with ["_"] (before any calculation), "Unsupported stats"
    otherwise. *)
Theorem getattr_missing_name calc hr f name s d s2 d2 :
  endswith name "_percent" = false -> name <> "stats_timestamp"%string ->
  data s = Some d -> d !! name = None ->
  calc (getattr calc hr f) name (set_pending true s) = (inr tt, s2) ->
  data s2 = Some d2 -> d2 !! name = None ->
  getattr calc hr (S f) name s =
    if startswith name "_" then (inl (InvalidStats name), s)
    else (inl (UnsupportedStats name), s2).
Proof.
  intros H2 H3 Hd Hn Hc Hd2 Hn2.
  destruct (startswith name "_") eqn:H1; [simpl; by rewrite H1|].
  rewrite (getattr_miss _ _ _ _ _ _ H1 H2 H3 Hd Hn).
  rewrite (bind_ok _ _ _ _ _ Hc). unfold after_miss.
  rewrite (bind_ok _ _ _ _ _ (current_data_some _ _ Hd2)). by rewrite Hn2.
Qed.

Lemma indicator_sum (p : unit_row -> bool) us :
  fold_right Z.add 0 (map (fun r => if p r then 1 else 0) us) = count_units p us.
Proof.
  unfold count_units. induction us as [|u us IH]; [done|].
  simpl. rewrite filter_cons. destruct (p u); simpl; rewrite IH; lia.
Qed.

Lemma conditional_sum_count k (p : unit_row -> bool) us :
  startswith k "last_" = false ->
  store_value k (conditional_sum (fun _ => 1) p us) = VInt (count_units p us).
Proof.
  intros Hk. unfold conditional_sum.
  destruct us as [|u us]; simpl; [by rewrite Hk|].
  f_equal. exact (indicator_sum p (u :: us)).
Qed.

Lemma leaf_record_stats tr d k :
  k ∉ leaf_late_keys ->
  leaf_record tr d !! k = store_pairs (leaf_stats (codes tr) (unit_set tr)) d !! k.
Proof.
  intros Hk. unfold leaf_late_keys in Hk.
  unfold leaf_record, count_changes_record, fetch_last_change_record, store_dict.
  destruct (last_change tr) as [[ts author]|];
    do 6 (rewrite lookup_insert_ne by (intros <-; apply Hk; set_solver)); done.
Qed.

Lemma leaf_lookup tr d k v :
  (k, v) ∈ leaf_stats (codes tr) (unit_set tr) -> k ∉ leaf_late_keys ->
  leaf_record tr d !! k = Some (store_value k v).
Proof.
  intros Hin Hk. rewrite leaf_record_stats by done.
  by apply store_pairs_in; [apply leaf_stats_nodup|].
Qed.

Lemma eager_lookup tr t k v :
  (k, v) ∈ leaf_stats (codes tr) (unit_set tr) -> k ∉ leaf_late_keys ->
  k <> "stats_timestamp"%string ->
  eager_record tr t !! k = Some (store_value k v).
Proof.
  intros Hin Hk Hts. unfold eager_record.
  rewrite lookup_insert_ne by congruence. by apply leaf_lookup.
Qed.

Lemma empty_leaf_stats c :
  Forall (fun kv => startswith kv.1 "last_" = false /\ store_value kv.1 kv.2 = VInt 0)
    (leaf_stats c []).
Proof. decide_list. Qed.

Lemma late_keys_not_ts : Forall (fun k => k <> "stats_timestamp"%string) leaf_late_keys.
Proof. decide_list. Qed.

Lemma store_value_sql_sum k xs :
  startswith k "last_" = false -> exists n, store_value k (sql_sum xs) = VInt n.
Proof.
  intros Hk. destruct xs as [|x xs]; simpl; [rewrite Hk|]; by eexists.
Qed.

Lemma store_value_conditional_sum {A} k (val : A -> Z) cond rows :
  startswith k "last_" = false -> exists n, store_value k (conditional_sum val cond rows) = VInt n.
Proof. unfold conditional_sum. apply store_value_sql_sum. Qed.

(** C10 (amended). [store k None] writes 0 unless [k] starts with
    ["last_"], and any other value is written unchanged. After an eager
    [update_stats] of a translation with no units, every basic key other
    than [languages], [last_changed], [last_author] and the change counters
    holds 0; [languages] holds 1; [last_changed]/[last_author] come from the
    last change; the change counters are integers, 0 without a last change. *)
Theorem empty_leaf_record (tr : translation) (f : nat) (s : stats_state) :
  unit_set tr = [] ->
  (forall k (d : record), store_dict k VNone d !! k =
     Some (if startswith k "last_" then VNone else VInt 0)) /\
  (forall k v (d : record), v <> VNone -> store_dict k v d !! k = Some v) /\
  exists d', data (snd (Leaf.update_stats tr (S f) false s)) = Some d' /\
    (forall k, k ∈ BASIC_KEYS -> k ∉ leaf_late_keys -> d' !! k = Some (VInt 0)) /\
    d' !! "languages"%string = Some (VInt 1) /\
    d' !! "last_changed"%string =
      Some (match last_change tr with Some (ts, _) => VTime ts | None => VNone end) /\
    d' !! "last_author"%string =
      Some (match last_change tr with Some (_, a) => a | None => VNone end) /\
    (forall k, k ∈ ["recent_changes"; "monthly_changes"; "total_changes"]%string ->
       exists n, d' !! k = Some (VInt n) /\ (last_change tr = None -> n = 0)).
Proof.
  intros Hu. split; [|split].
  - intros k d. unfold store_dict. by rewrite lookup_insert_eq.
  - intros k v d Hv. unfold store_dict. rewrite lookup_insert_eq.
    destruct v; [done|congruence|done].
  - rewrite update_stats_eager_run. simpl. eexists. split; [reflexivity|].
    split; [|split; [|split; [|split]]].
    + intros k Hk Hl.
      destruct (proj1 (Forall_forall _ _) basic_keys_names k Hk) as (_ & _ & Hts & _ & _).
      destruct (proj1 (Forall_forall _ _) (basic_keys_leaf (codes tr) (unit_set tr)) k Hk)
        as [Hin|Hin]; [|done].
      apply list_elem_of_fmap in Hin as [[k' v] [Hk' Hin]]. simpl in Hk'. subst k'.
      rewrite (eager_lookup _ _ _ _ Hin Hl Hts). f_equal.
      rewrite Hu in Hin.
      exact (proj2 (proj1 (Forall_forall _ _) (empty_leaf_stats (codes tr)) _ Hin)).
    + unfold eager_record, leaf_record, count_changes_record, fetch_last_change_record, store_dict.
      destruct (last_change tr) as [[ts a]|];
        do 6 (rewrite lookup_insert_ne by discriminate); by rewrite lookup_insert_eq.
    + unfold eager_record, leaf_record, count_changes_record, fetch_last_change_record, store_dict.
      destruct (last_change tr) as [[ts a]|];
        do 5 (rewrite lookup_insert_ne by discriminate); by rewrite lookup_insert_eq.
    + unfold eager_record, leaf_record, count_changes_record, fetch_last_change_record, store_dict.
      destruct (last_change tr) as [[ts a]|];
        do 4 (rewrite lookup_insert_ne by discriminate); rewrite lookup_insert_eq;
        [|done]. by destruct a.
    + intros k Hk. unfold eager_record, leaf_record, count_changes_record, store_dict.
      rewrite lookup_insert_ne by (intros <-; set_solver).
      destruct (last_change tr) as [[ts a]|].
      * repeat (apply elem_of_cons in Hk as [Hk|Hk]; [subst k|]);
          [| | |by apply not_elem_of_nil in Hk];
          repeat first [rewrite lookup_insert_eq | rewrite lookup_insert_ne by discriminate];
          first
            [lazymatch goal with
             | |- context [store_value ?k (conditional_sum ?val ?cond ?rows)] =>
                 destruct (store_value_conditional_sum k val cond rows eq_refl) as [n Hn];
                 exists n; rewrite Hn; split; [done|discriminate]
             end
            |eexists; split; [reflexivity|discriminate]].
      * repeat (apply elem_of_cons in Hk as [Hk|Hk]; [subst k|]);
          [| | |by apply not_elem_of_nil in Hk];
          repeat first [rewrite lookup_insert_eq | rewrite lookup_insert_ne by discriminate];
          exists 0; done.
Qed.









(** C4 (code bug). On a translation with no cached record, one
    outermost read of the missing basic key [all] writes the cache twice,
    and so does one outermost read of the missing check key [check:same]:
    [calculate_by_name] and [calculate_checks] save although the miss has
    set [_pending_save], and the outermost miss saves again. *)
Lemma one_miss_two_saves :
  let s := snd (Leaf.stat readonly_translation 2 "all" fresh_state) in
  let s' := snd (Leaf.stat readonly_translation 2 "check:same" fresh_state) in
  saved fresh_state = [] /\
  length (saved s) = 2%nat /\ pending_save s = false /\
  length (saved s') = 2%nat /\ pending_save s' = false.
Proof. vm_compute. repeat split. Qed.

(** An instance of [basic_miss_saves] on [readonly_translation]. *)
Lemma basic_miss_saves_witness :
  "all"%string ∈ BASIC_KEYS /\ data loaded_state = Some ∅ /\ (∅ : record) !! "all"%string = None /\
  length (saved (snd (Leaf.stat readonly_translation 2 "all" loaded_state))) = 2%nat.
Proof.
  split; [decide_list|]. split; [reflexivity|]. split; [reflexivity|].
  destruct (basic_miss_saves readonly_translation 0 "all" loaded_state ∅)
    as (v & _ & E); [decide_list|reflexivity|reflexivity|].
  rewrite E. reflexivity.
Defined.

(** C9 counterexample: [stats_timestamp] is absent from the loaded record
    and [calculate_by_name] does not populate it, yet reading it returns 0
    instead of failing. *)
Lemma stats_timestamp_reads_zero :
  fst (Leaf.stat readonly_translation 2 "stats_timestamp" loaded_state) = inr (AVal (VInt 0)) /\
  (data (snd (calculate_by_name readonly_translation (Leaf.stat readonly_translation 1)
                "stats_timestamp" (set_pending true loaded_state)))
     ≫= fun d : record => d !! "stats_timestamp"%string) = None.
Proof. split; vm_compute; reflexivity. Qed.

(** An instance of [getattr_missing_name]: the unknown check
    [check:other] is unsupported. *)
Lemma getattr_missing_name_witness :
  fst (Leaf.stat readonly_translation 2 "check:other" loaded_state) =
    inl (UnsupportedStats "check:other").
Proof.
  pose (s2 := snd (calculate_by_name readonly_translation (Leaf.stat readonly_translation 1)
                     "check:other" (set_pending true loaded_state))).
  unfold Leaf.stat.
  rewrite (getattr_missing_name (calculate_by_name readonly_translation)
             (enable_review readonly_translation) 1 "check:other" loaded_state ∅ s2
             (default ∅ (data s2)));
    [reflexivity|reflexivity|discriminate|reflexivity|reflexivity
    |vm_compute; reflexivity|vm_compute; reflexivity|vm_compute; reflexivity].
Defined.

(** C10 counterexample: a translation with no units stores
    [languages = 1], not 0. *)
Lemma empty_leaf_languages_one :
  unit_set empty_translation = [] /\
  (data (snd (Leaf.update_stats empty_translation 1 false fresh_state))
     ≫= fun d : record => d !! "languages"%string) = Some (VInt 1).
Proof. split; [reflexivity|vm_compute; reflexivity]. Qed.

(** An instance of [empty_leaf_record] on [empty_translation]. *)
Lemma empty_leaf_record_witness :
  unit_set empty_translation = [] /\
  (data (snd (Leaf.update_stats empty_translation 1 false fresh_state))
     ≫= fun d : record => d !! "all_words"%string) = Some (VInt 0).
Proof.
  split; [reflexivity|].
  destruct (empty_leaf_record empty_translation 0 fresh_state eq_refl)
    as (_ & _ & d' & E & H & _).
  rewrite E. simpl. apply H; [decide_list|unfold leaf_late_keys; decide_list].
Defined.



End LeafFacts.


(** ** Further facts: [store], [zero_stats] and [aggregate] *)

Lemma store_pairs_lookup_in (l : list (string * value)) (d : record) k :
  NoDup l.*1 -> k ∈ l.*1 ->
  exists v, (k, v) ∈ l /\ store_pairs l d !! k = Some (store_value k v).
Proof.
  intros Hnd Hk. apply list_elem_of_fmap in Hk as [[k' v] [Hk Hin]]. simpl in Hk. subst k'.
  exists v. split; [done|]. by apply store_pairs_in.
Qed.

(** Storing the items of a dict with distinct keys gives the same record
    whatever their order. *)
Theorem store_pairs_order (l l' : list (string * value)) (d : record) :
  l ≡ₚ l' -> NoDup l.*1 -> store_pairs l d = store_pairs l' d.
Proof.
  intros Hp Hnd. assert (Hnd' : NoDup l'.*1) by (by rewrite <- Hp).
  apply map_eq. intros k. destruct (decide (k ∈ l.*1)) as [Hk|Hk].
  - destruct (store_pairs_lookup_in l d k Hnd Hk) as (v & Hin & ->).
    symmetry. apply store_pairs_in; [done|]. by rewrite <- Hp.
  - rewrite !store_pairs_notin; [done| |done]. by rewrite <- Hp.
Qed.

Lemma store_pairs_order_witness :
  [("all"%string, VInt 1); ("todo"%string, VNone)] ≡ₚ [("todo"%string, VNone); ("all"%string, VInt 1)] /\
  NoDup [("all"%string, VInt 1); ("todo"%string, VNone)].*1 /\
  store_pairs [("all"%string, VInt 1); ("todo"%string, VNone)] ∅ =
    store_pairs [("todo"%string, VNone); ("all"%string, VInt 1)] ∅.
Proof.
  assert (Hp : [("all"%string, VInt 1); ("todo"%string, VNone)] ≡ₚ
               [("todo"%string, VNone); ("all"%string, VInt 1)]) by apply Permutation_swap.
  assert (Hn : NoDup [("all"%string, VInt 1); ("todo"%string, VNone)].*1) by decide_list.
  split; [exact Hp|]. split; [exact Hn|]. exact (store_pairs_order _ _ ∅ Hp Hn).
Defined.

(** [zero_stats(keys)]: [stats_timestamp] is 0, [last_changed] and
    [last_author] are [None], every other key of [keys] is 0 and no other
    key is set. *)
Theorem zero_stats_lookup (keys : list string) k :
  zero_stats keys !! k =
    if String.eqb k "stats_timestamp" then Some (VInt 0)
    else if String.eqb k "last_changed" || String.eqb k "last_author" then Some VNone
    else if decide (k ∈ keys) then Some (VInt 0) else None.
Proof.
  unfold zero_stats.
  destruct (String.eqb_spec k "stats_timestamp") as [->|H1]; [by rewrite lookup_insert_eq|].
  rewrite lookup_insert_ne by congruence.
  destruct (String.eqb_spec k "last_author") as [->|H2].
  { rewrite orb_true_r. by rewrite lookup_insert_eq. }
  rewrite lookup_insert_ne by congruence.
  destruct (String.eqb_spec k "last_changed") as [->|H3]; [by rewrite lookup_insert_eq|].
  rewrite lookup_insert_ne by congruence. simpl.
  case_decide as Hk; [by apply zero_map_lookup|].
  apply not_elem_of_list_to_map_1. intros Hin.
  apply list_elem_of_fmap in Hin as [[k' v] [Hk' Hin]]. simpl in Hk'. subst k'.
  apply list_elem_of_In, in_map_iff in Hin as [k'' [Heq Hin]]. injection Heq as -> _.
  apply Hk. by apply list_elem_of_In.
Qed.



(** ** Further facts: loading and attribute reads *)

Module LazyFacts.
Import Lazy LeafFacts Inputs.



(** An attribute read on an object not loaded yet, whose name the cache
    entry holds, loads that entry and returns its value: nothing is
    computed and nothing saved. *)
Theorem getattr_cached calc hr f name (s : stats_state) (c : record) v :
  startswith name "_" = false -> endswith name "_percent" = false ->
  name <> "stats_timestamp"%string ->
  data s = None -> cache_entry s = Some (Some c) -> c !! name = Some v ->
  getattr calc hr (S f) name s = (inr (AVal v), set_data (Some c) s).
Proof.
  intros H1 H2 H3 Hd Hc Hv.
  assert (Hl : ensure_loaded s = (inr tt, set_data (Some c) s)).
  { destruct s as [d0 p ce sv cl]; simpl in Hd, Hc; subst; done. }
  simpl. rewrite H1. rewrite (bind_ok _ _ _ _ _ Hl). rewrite H2.
  destruct (String.eqb_spec name "stats_timestamp"); [done|].
  rewrite (bind_ok _ _ _ _ _ (current_data_some _ c (set_data_data _ _))). by rewrite Hv.
Qed.

Lemma getattr_cached_witness :
  cached_record !! "all"%string = Some (VInt 10) /\
  getattr (Leaf.calculate_by_name Leaf.readonly_translation) true 1 "all" cached_state =
    (inr (AVal (VInt 10)), set_data (Some cached_record) cached_state).
Proof.
  split; [reflexivity|].
  apply (getattr_cached _ _ _ _ _ cached_record); try reflexivity. discriminate.
Defined.

Lemma percent_total_key_cases base :
  percent_total_key base = "all"%string \/ percent_total_key base = "all_words"%string \/
  percent_total_key base = "all_chars"%string.
Proof. unfold percent_total_key. destruct (endswith base "_words"), (endswith base "_chars"); auto. Qed.

Lemma getattr_percent_step calc hr g name (s : stats_state) (d : record) :
  startswith name "_" = false -> endswith name "_percent" = true -> data s = Some d ->
  getattr calc hr (S g) name s = calculate_percent hr (getattr calc hr g) name s.
Proof.
  intros H1 H2 Hd. cbn [getattr]. rewrite H1.
  rewrite (bind_ok _ _ _ _ _ (ensure_loaded_some _ _ Hd)). by rewrite H2.
Qed.

(** A [<base>_percent] attribute of a loaded record holding [<base>] and
    its total ([all], [all_words] or [all_chars]) as integers is
    [translation_percent] of the two, computed without changing the
    state. *)
Theorem getattr_percent calc hr f name (s : stats_state) (d : record) (t n : Z) :
  startswith name "_" = false -> endswith name "_percent" = true ->
  startswith (percent_base name) "_" = false ->
  endswith (percent_base name) "_percent" = false ->
  percent_base name <> "stats_timestamp"%string ->
  data s = Some d ->
  d !! percent_total_key (percent_base name) = Some (VInt t) ->
  d !! percent_base name = Some (VInt n) ->
  getattr calc hr (S (S f)) name s =
    (inr (APercent (translation_percent n t
                      (bool_decide (percent_base name ∈ completed hr)))), s).
Proof.
  intros H1 H2 Hb1 Hb2 Hb3 Hd Ht Hn.
  rewrite (getattr_percent_step _ _ _ _ _ d H1 H2 Hd). unfold calculate_percent.
  assert (Htot : getattr calc hr (S f) (percent_total_key (percent_base name)) s
                 = (inr (AVal (VInt t)), s)).
  { apply (getattr_hit _ _ _ _ _ d); [| | |done|done];
      destruct (percent_total_key_cases (percent_base name)) as [E|[E|E]]; rewrite E; done. }
  rewrite (bind_ok _ _ _ _ _ (bind_ok _ _ _ _ _ Htot)).
  rewrite (bind_ok _ _ _ _ _ (bind_ok _ _ _ _ _ (getattr_hit _ _ _ _ _ d _ Hb1 Hb2 Hb3 Hd Hn))).
  done.
Qed.

Lemma getattr_percent_witness :
  cached_record !! "translated"%string = Some (VInt 5) /\
  getattr (Leaf.calculate_by_name Leaf.readonly_translation) false 2 "translated_percent"
    loaded_cached_state =
    (inr (APercent (translation_percent 5 10
                      (bool_decide (percent_base "translated_percent" ∈ completed false)))),
     loaded_cached_state).
Proof.
  split; [reflexivity|].
  apply (getattr_percent _ _ _ _ _ cached_record); try reflexivity. vm_compute. discriminate.
Defined.

End LazyFacts.

(** ** Further facts: [waiting_review] and [get_data()] *)

Module DerivedFacts.
Import Lazy Leaf LeafFacts Derived Inputs.

Lemma store_value_conditional {A} k (val : A -> Z) (p : A -> bool) rows :
  startswith k "last_" = false ->
  store_value k (conditional_sum val p rows) =
    VInt (fold_right Z.add 0 (map (fun r => if p r then val r else 0) rows)).
Proof. intros Hk. unfold conditional_sum. destruct rows; simpl; [by rewrite Hk|done]. Qed.

Lemma waiting_sum (val : unit_row * bool -> Z) (t a r : Z) rows :
  t <= a -> t <= r -> a <> r ->
  fold_right Z.add 0 (map (fun u => if t <=? state u.1 then val u else 0) rows)
  - fold_right Z.add 0 (map (fun u => if state u.1 =? a then val u else 0) rows)
  - fold_right Z.add 0 (map (fun u => if state u.1 =? r then val u else 0) rows)
  = fold_right Z.add 0 (map (fun u => if (t <=? state u.1) && negb (state u.1 =? a)
                                          && negb (state u.1 =? r) then val u else 0) rows).
Proof.
  intros Ha Hr Har. induction rows as [|u rows IH]; [done|]. simpl.
  destruct (Z.leb_spec t (state u.1)), (Z.eqb_spec (state u.1) a), (Z.eqb_spec (state u.1) r);
    simpl; lia.
Qed.

(** [waiting_review], [waiting_review_words] and [waiting_review_chars] of
    a translation just computed: the sum, over the rows the statistics
    query counts, of the rows whose state is at least translated and
    neither approved nor read-only. *)
Theorem waiting_review_leaf (tr : translation) (f : nat) (s : stats_state) (t : Z)
    (sfx : string) (val : unit_row * bool -> Z) :
  (sfx, val) ∈ [(""%string, fun _ => 1); ("_words"%string, fun r => num_words r.1);
                ("_chars"%string, fun r => source_length r.1)] ->
  STATE_TRANSLATED (codes tr) <= STATE_APPROVED (codes tr) ->
  STATE_TRANSLATED (codes tr) <= STATE_READONLY (codes tr) ->
  STATE_APPROVED (codes tr) <> STATE_READONLY (codes tr) ->
  data s = Some (eager_record tr t) ->
  waiting_review_of (Leaf.stat tr (S f)) sfx s =
    (inr (fold_right Z.add 0
            (map (fun r => if (STATE_TRANSLATED (codes tr) <=? state r.1)
                              && negb (state r.1 =? STATE_APPROVED (codes tr))
                              && negb (state r.1 =? STATE_READONLY (codes tr))
                           then val r else 0) (label_join (unit_set tr)))), s).
Proof.
  intros Hsv Ha Hr Har Hd.
  rewrite <- (waiting_sum val _ _ _ _ Ha Hr Har).
  assert (Hget : forall name p,
    startswith name "_" = false -> endswith name "_percent" = false ->
    name <> "stats_timestamp"%string -> startswith name "last_" = false ->
    (name, conditional_sum val p (label_join (unit_set tr)))
      ∈ leaf_stats (codes tr) (unit_set tr) ->
    name ∉ leaf_late_keys ->
    Leaf.stat tr (S f) name s =
      (inr (AVal (VInt (fold_right Z.add 0
                          (map (fun r => if p r then val r else 0)
                             (label_join (unit_set tr)))))), s)).
  { intros name p H1 H2 H3 H4 Hin Hl. unfold Leaf.stat.
    apply (getattr_hit _ _ _ _ _ (eager_record tr t)); [done|done|done|done|].
    rewrite (eager_lookup _ _ _ _ Hin Hl H3). by rewrite store_value_conditional. }
  unfold waiting_review_of.
  apply elem_of_cons in Hsv as [Hsv|Hsv]; [|apply elem_of_cons in Hsv as [Hsv|Hsv];
    [|apply elem_of_cons in Hsv as [Hsv|Hsv]; [|by apply not_elem_of_nil in Hsv]]];
    injection Hsv as -> ->;
    (erewrite (bind_ok _ _ _ _ _ (bind_ok _ _ _ _ _
       (Hget _ (fun r => STATE_TRANSLATED (codes tr) <=? state r.1) _ _ _ _ _ _)));
     [erewrite (bind_ok _ _ _ _ _ (bind_ok _ _ _ _ _
        (Hget _ (fun r => state r.1 =? STATE_APPROVED (codes tr)) _ _ _ _ _ _)));
      [erewrite (bind_ok _ _ _ _ _ (bind_ok _ _ _ _ _
         (Hget _ (fun r => state r.1 =? STATE_READONLY (codes tr)) _ _ _ _ _ _)));
       [reflexivity|..]|..]|..]);
    idtac.
  Unshelve.
  all: lazymatch goal with
       | |- _ ∈ leaf_stats _ _ => unfold leaf_stats, partition; in_list
       | |- _ = _ => reflexivity
       | |- _ => decide_list
       end.
Qed.

Lemma waiting_review_leaf_witness :
  STATE_TRANSLATED (codes readonly_translation) <= STATE_APPROVED (codes readonly_translation) /\
  STATE_TRANSLATED (codes readonly_translation) <= STATE_READONLY (codes readonly_translation) /\
  STATE_APPROVED (codes readonly_translation) <> STATE_READONLY (codes readonly_translation) /\
  waiting_review_of (Leaf.stat readonly_translation 1) "_words" reviewed_state =
    (inr (fold_right Z.add 0
            (map (fun r => if (STATE_TRANSLATED (codes readonly_translation) <=? state r.1)
                              && negb (state r.1 =? STATE_APPROVED (codes readonly_translation))
                              && negb (state r.1 =? STATE_READONLY (codes readonly_translation))
                           then num_words r.1 else 0)
               (label_join (unit_set readonly_translation)))), reviewed_state).
Proof.
  split; [simpl; lia|]. split; [simpl; lia|]. split; [simpl; lia|].
  apply (waiting_review_leaf readonly_translation 0 reviewed_state 0 "_words"
           (fun r => num_words r.1)); [in_list|simpl; lia|simpl; lia|simpl; lia|reflexivity].
Defined.

Lemma calculate_percent_result hr g p (s s' : stats_state) a :
  calculate_percent hr g p s = (inr a, s') -> exists q, a = APercent q.
Proof.
  unfold calculate_percent. unfold mbind at 1, M_bind at 1.
  destruct ((g (percent_total_key (percent_base p)) ≫= as_int) s) as [[e|tot] s1]; [discriminate|].
  unfold mbind at 1, M_bind at 1.
  destruct ((g (percent_base p) ≫= as_int) s1) as [[e|n] s2]; [discriminate|].
  intros H. injection H as <- _. by eexists.
Qed.

Lemma percent_pairs_result hr g ps (s s' : stats_state) l :
  percent_pairs hr g ps s = (inr l, s') ->
  l.*1 = ps /\ Forall (fun pq => exists q, pq.2 = APercent q) l.
Proof.
  revert s s' l. induction ps as [|p rest IH]; intros s s' l H; simpl in H.
  - injection H as <- _. split; [done|constructor].
  - unfold mbind at 1, M_bind at 1 in H.
    destruct (calculate_percent hr g p s) as [[e|a] s1] eqn:Ha; [discriminate|].
    unfold mbind at 1, M_bind at 1 in H.
    destruct (percent_pairs hr g rest s1) as [[e|l'] s2] eqn:Hl; [discriminate|].
    injection H as <- _. destruct (IH _ _ _ Hl) as [H1 H2].
    split; [rewrite fmap_cons; simpl; by rewrite H1|]. constructor; [|done].
    exact (calculate_percent_result _ _ _ _ _ _ Ha).
Qed.

(** [get_data()], when it returns: every key of [_data] with its stored
    value, every other key of the twelve percentages with a computed
    percentage, and no other key. *)
Theorem get_data_merge (hr : bool) (g : string -> M attr) (s s' : stats_state)
    (r : gmap string attr) :
  get_data hr g s = (inr r, s') ->
  exists d : record, data s' = Some d /\
    (forall k v, d !! k = Some v -> r !! k = Some (AVal v)) /\
    (forall k, d !! k = None -> k ∈ PERCENTS -> exists q, r !! k = Some (APercent q)) /\
    (forall k, d !! k = None -> k ∉ PERCENTS -> r !! k = None).
Proof.
  unfold get_data. unfold mbind at 1, M_bind at 1.
  destruct (percent_pairs hr g PERCENTS s) as [[e|l] s1] eqn:Hl; [discriminate|].
  destruct (percent_pairs_result _ _ _ _ _ _ Hl) as [Hk Hq].
  unfold current_data, gets. unfold mbind, M_bind.
  destruct (data s1) as [d|] eqn:Hd; [|discriminate].
  intros H. injection H as <- <-. exists d. split; [done|].
  split; [|split].
  - intros k v Hv. rewrite lookup_union_l'; [by rewrite lookup_fmap, Hv|].
    rewrite lookup_fmap, Hv. by eexists.
  - intros k Hn Hp. rewrite lookup_union_r by (by rewrite lookup_fmap, Hn).
    rewrite <- Hk in Hp. apply list_elem_of_fmap in Hp as [[k' a] [Hk' Hin]].
    simpl in Hk'. subst k'.
    rewrite (elem_of_list_to_map_1 _ _ _ (ltac:(rewrite Hk; decide_list)) Hin).
    rewrite Forall_forall in Hq. destruct (Hq _ Hin) as [q Hq']. simpl in Hq'. subst a.
    by eexists.
  - intros k Hn Hp. rewrite lookup_union_r by (by rewrite lookup_fmap, Hn).
    apply not_elem_of_list_to_map_1. by rewrite Hk.
Qed.

Lemma get_data_merge_witness :
  match get_data true (Leaf.stat readonly_translation 3) reviewed_state with
  | (inr r, s') =>
      exists d : record, data s' = Some d /\
        (forall k v, d !! k = Some v -> r !! k = Some (AVal v)) /\
        (forall k, d !! k = None -> k ∈ PERCENTS -> exists q, r !! k = Some (APercent q)) /\
        (forall k, d !! k = None -> k ∉ PERCENTS -> r !! k = None)
  | (inl _, _) => False
  end.
Proof.
  assert (Hok : match fst (get_data true (Leaf.stat readonly_translation 3) reviewed_state) with
                | inr _ => true | inl _ => false end = true) by (vm_compute; reflexivity).
  revert Hok.
  destruct (get_data true (Leaf.stat readonly_translation 3) reviewed_state) as [[e|r] s'] eqn:E.
  - cbn [fst]. intros Hok. discriminate Hok.
  - intros _. exact (get_data_merge _ _ _ _ _ E).
Defined.

End DerivedFacts.

(** ** Further facts: [prefetch_many] and [prefetch_stats] *)

Module PrefetchFacts.
Import Prefetch.

Lemma prefetch_lookup_snoc objs x :
  prefetch_lookup (objs ++ [x]) =
    if is_loaded x then prefetch_lookup objs
    else <[obj_key x := length objs]> (prefetch_lookup objs).
Proof.
  unfold prefetch_lookup. rewrite length_app. simpl.
  rewrite Nat.add_1_r, seq_S. simpl.
  rewrite zip_with_app by (by rewrite length_seq). rewrite foldl_app. simpl. done.
Qed.

Lemma prefetch_lookup_spec objs k i :
  prefetch_lookup objs !! k = Some i <->
  exists o, objs !! i = Some o /\ obj_key o = k /\ last_unloaded objs i o.
Proof.
  revert k i. induction objs as [|x objs IH] using rev_ind; intros k i.
  - unfold prefetch_lookup. simpl. rewrite lookup_empty. split; [discriminate|].
    intros (o & Ho & _). done.
  - rewrite prefetch_lookup_snoc. unfold last_unloaded.
    assert (Hlt : forall j o', objs !! j = Some o' -> (j < length objs)%nat)
      by (intros j o' Hj; by apply lookup_lt_Some in Hj).
    destruct (is_loaded x) eqn:Hx.
    + rewrite IH. unfold last_unloaded. split.
      * intros (o & Ho & Hk & Hu & Hl). exists o. split; [by apply lookup_app_l_Some|].
        split; [done|]. split; [done|]. intros j o' Hij Hj Hk'.
        apply lookup_app_Some in Hj as [Hj|[Hlen Hj]]; [by apply (Hl j)|].
        apply list_lookup_singleton_Some in Hj as [_ <-]. done.
      * intros (o & Ho & Hk & Hu & Hl).
        apply lookup_app_Some in Ho as [Ho|[Hlen Ho]].
        -- exists o. split; [done|]. split; [done|]. split; [done|].
           intros j o' Hij Hj Hk'. apply (Hl j); [done| |done]. by apply lookup_app_l_Some.
        -- apply list_lookup_singleton_Some in Ho as [_ <-]. congruence.
    + destruct (String.eqb_spec k (obj_key x)) as [->|Hne].
      * rewrite lookup_insert_eq. split.
        -- intros [= <-]. exists x. split; [by rewrite lookup_app_r, Nat.sub_diag|].
           split; [done|]. split; [done|]. intros j o' Hij Hj _.
           apply lookup_lt_Some in Hj. rewrite length_app in Hj. simpl in Hj. lia.
        -- intros (o & Ho & Hk & Hu & Hl).
           apply lookup_app_Some in Ho as [Ho|[Hlen Ho]].
           ++ exfalso. specialize (Hl (length objs) x (Hlt _ _ Ho)).
              rewrite lookup_app_r, Nat.sub_diag in Hl by lia.
              rewrite (Hl eq_refl (eq_sym Hk)) in Hx; congruence.
           ++ apply list_lookup_singleton_Some in Ho as [Hi _]. f_equal. lia.
      * rewrite lookup_insert_ne by congruence. rewrite IH. split.
        -- intros (o & Ho & Hk & Hu & Hl). exists o. split; [by apply lookup_app_l_Some|].
           split; [done|]. split; [done|]. intros j o' Hij Hj Hk'.
           apply lookup_app_Some in Hj as [Hj|[Hlen Hj]]; [by apply (Hl j)|].
           apply list_lookup_singleton_Some in Hj as [_ <-]. congruence.
        -- intros (o & Ho & Hk & Hu & Hl).
           apply lookup_app_Some in Ho as [Ho|[Hlen Ho]].
           ++ exists o. split; [done|]. split; [done|]. split; [done|].
              intros j o' Hij Hj Hk'. apply (Hl j); [done| |done]. by apply lookup_app_l_Some.
           ++ apply list_lookup_singleton_Some in Ho as [_ <-]. congruence.
Qed.

Lemma prefetch_lookup_inj objs k1 k2 i :
  prefetch_lookup objs !! k1 = Some i -> prefetch_lookup objs !! k2 = Some i -> k1 = k2.
Proof.
  rewrite !prefetch_lookup_spec. intros (o1 & H1 & <- & _) (o2 & H2 & <- & _). congruence.
Qed.

Section Fold.
Context {A : Type} (lk : gmap string nat) (key_of : A -> string) (val_of : A -> option record).

Lemma fold_set_frame (L : list A) os i :
  (forall a, a ∈ L -> lk !! key_of a <> Some i) -> foldl (set_step lk key_of val_of) os L !! i = os !! i.
Proof.
  revert os. induction L as [|a L IH]; intros os H; [done|]. simpl.
  rewrite IH by (intros b Hb; apply H; by right).
  unfold set_step. destruct (lk !! key_of a) as [j|] eqn:Hj; [|done].
  unfold set_data_at. rewrite list_lookup_alter_ne; [done|].
  intros ->. apply (H a); [by left|done].
Qed.

Lemma fold_set_hit (L : list A) os i a :
  (forall k1 k2 j, lk !! k1 = Some j -> lk !! k2 = Some j -> k1 = k2) ->
  NoDup (key_of <$> L) -> a ∈ L -> lk !! key_of a = Some i ->
  foldl (set_step lk key_of val_of) os L !! i = (fun o => mk_obj (obj_key o) (val_of a)) <$> os !! i.
Proof.
  intros Hinj. revert os. induction L as [|b L IH]; intros os Hnd Ha Hi;
    [by apply not_elem_of_nil in Ha|].
  rewrite fmap_cons in Hnd. apply NoDup_cons in Hnd as [Hb Hnd]. simpl.
  apply elem_of_cons in Ha as [->|Ha].
  - rewrite fold_set_frame.
    + unfold set_step. rewrite Hi. unfold set_data_at. by rewrite list_lookup_alter_eq.
    + intros c Hc Hci. apply Hb. rewrite <- (Hinj _ _ _ Hci Hi).
      apply list_elem_of_fmap. by exists c.
  - rewrite IH by done. f_equal. unfold set_step.
    destruct (lk !! key_of b) as [j|] eqn:Hj; [|done].
    unfold set_data_at. rewrite list_lookup_alter_ne; [done|].
    intros ->. apply Hb. rewrite (Hinj _ _ _ Hj Hi). apply list_elem_of_fmap. by exists a.
Qed.

Lemma fold_set_length (L : list A) os : length (foldl (set_step lk key_of val_of) os L) = length os.
Proof.
  revert os. induction L as [|a L IH]; intros os; [done|]. simpl. rewrite IH.
  unfold set_step. destruct (lk !! key_of a); [apply length_alter|done].
Qed.

End Fold.

Lemma prefetch_not_last objs i o k :
  objs !! i = Some o -> ~ last_unloaded objs i o -> prefetch_lookup objs !! k <> Some i.
Proof.
  intros Ho Hn Hk. apply prefetch_lookup_spec in Hk as (o' & Ho' & _ & Hl).
  rewrite Ho in Ho'. injection Ho' as <-. done.
Qed.

(** [prefetch_many(stats)] keeps the objects and their order; the last
    not loaded object of each key gets the cache entry under its key, or
    [{}] when the cache has none; every other object is left as it was. *)
Theorem prefetch_many_spec (cache : gmap string (option record)) (objs : list stats_obj) :
  length (prefetch_many cache objs) = length objs /\
  (forall i o, objs !! i = Some o -> last_unloaded objs i o ->
     prefetch_many cache objs !! i =
       Some (mk_obj (obj_key o) (default (Some ∅) (cache !! obj_key o)))) /\
  (forall i o, objs !! i = Some o -> ~ last_unloaded objs i o ->
     prefetch_many cache objs !! i = Some o).
Proof.
  unfold prefetch_many. set (lk := prefetch_lookup objs).
  assert (Hinj : forall k1 k2 j, lk !! k1 = Some j -> lk !! k2 = Some j -> k1 = k2)
    by apply prefetch_lookup_inj.
  case_decide as Hemp.
  { split; [done|]. split; [|done].
    intros i o Ho Hl. exfalso.
    assert (Hk : lk !! obj_key o = Some i) by (apply prefetch_lookup_spec; by exists o).
    rewrite Hemp, lookup_empty in Hk. discriminate. }
  set (data := get_many cache lk).
  split; [by rewrite !fold_set_length|]. split.
  - intros i o Ho Hl.
    assert (Hk : lk !! obj_key o = Some i) by (apply prefetch_lookup_spec; by exists o).
    destruct (cache !! obj_key o) as [c|] eqn:Hc.
    + assert (Hd : data !! obj_key o = Some c).
      { apply map_lookup_filter_Some. split; [done|]. simpl. rewrite Hk. by eexists. }
      rewrite fold_set_frame.
      * rewrite (fold_set_hit lk fst snd _ _ _ (obj_key o, c)); [by rewrite Ho|done| | |done].
        -- apply NoDup_fst_map_to_list.
        -- by apply elem_of_map_to_list.
      * intros k Hk' Hki. rewrite (Hinj _ _ _ Hki Hk) in Hk'.
        apply elem_of_elements, elem_of_difference in Hk' as [_ Hk'].
        apply Hk'. apply elem_of_dom. by eexists.
    + assert (Hd : data !! obj_key o = None).
      { apply map_lookup_filter_None. by left. }
      rewrite (fold_set_hit lk (fun k => k) (fun _ => Some ∅) _ _ _ (obj_key o)); [|done| | |done].
      * rewrite fold_set_frame; [by rewrite Ho|].
        intros [k v] Hkv Hki. simpl in Hki. rewrite (Hinj _ _ _ Hki Hk) in Hkv.
        apply elem_of_map_to_list in Hkv. congruence.
      * rewrite list_fmap_id. apply NoDup_elements.
      * apply elem_of_elements, elem_of_difference. split.
        -- apply elem_of_dom. by eexists.
        -- rewrite not_elem_of_dom. done.
  - intros i o Ho Hn.
    rewrite fold_set_frame; [rewrite fold_set_frame; [done|]|].
    + intros a _. by apply (prefetch_not_last objs i o).
    + intros a _. by apply (prefetch_not_last objs i o).
Qed.

(** [prefetch_stats(objects)]: the same, the empty list included. *)
Theorem prefetch_stats_spec (cache : gmap string (option record)) (objs : list stats_obj) :
  length (prefetch_stats cache objs) = length objs /\
  (forall i o, objs !! i = Some o -> last_unloaded objs i o ->
     prefetch_stats cache objs !! i =
       Some (mk_obj (obj_key o) (default (Some ∅) (cache !! obj_key o)))) /\
  (forall i o, objs !! i = Some o -> ~ last_unloaded objs i o ->
     prefetch_stats cache objs !! i = Some o).
Proof.
  destruct objs as [|o0 rest] eqn:E.
  - split; [done|]. split; intros i o Ho; by rewrite lookup_nil in Ho.
  - rewrite <- E. unfold prefetch_stats. rewrite E. rewrite <- E. apply prefetch_many_spec.
Qed.

End PrefetchFacts.

(** ** Further facts: [update_stats()] of the other nodes *)

Module NodeFacts.
Import Lazy LeafFacts Nodes Inputs.

(** An eager [update_stats()] of an aggregating node whose aggregation
    raises [TypeError] raises it with [_data] left as the cleared [{}]:
    nothing is saved, the cache entry and the clock are untouched. *)
Theorem agg_update_stats_type_error (fuel : nat) (n : agg_node) (s : stats_state) :
  agg_calculate_basic n ∅ = None ->
  node_update_stats fuel (NAggregating n) false s = (inl TypeError, set_data (Some ∅) s).
Proof.
  intros H. cbn [node_update_stats]. unfold Lazy.update_stats, clear, modify.
  unfold mbind at 1, M_bind at 1. unfold calculate_basic.
  rewrite (bind_err _ _ _ _ _ (bind_err _ _ _ _ _ (agg_calculate_basic__fail n _ H))).
  done.
Qed.

Lemma agg_update_stats_type_error_witness :
  agg_calculate_basic failing_node ∅ = None /\
  node_update_stats 1 (NAggregating failing_node) false Leaf.fresh_state =
    (inl TypeError, set_data (Some ∅) Leaf.fresh_state).
Proof.
  assert (H : agg_calculate_basic failing_node ∅ = None) by (vm_compute; reflexivity).
  split; [exact H|]. exact (agg_update_stats_type_error 1 failing_node Leaf.fresh_state H).
Defined.

(** An eager [update_stats()] of [DummyTranslationStats] leaves [_data]
    as [zero_stats(BASIC_KEYS)] stamped with the clock: every basic count
    reads 0, [last_changed] and [last_author] read [None], and nothing is
    saved nor written to the cache. *)
Theorem dummy_update_stats_eager (fuel : nat) (s : stats_state) :
  let res := node_update_stats fuel NDummy false s in
  fst res = inr tt /\ saved (snd res) = saved s /\ cache_entry (snd res) = cache_entry s /\
  exists d : record, data (snd res) = Some d /\
    forall k, d !! k =
      if String.eqb k "stats_timestamp" then Some (VInt (clock s))
      else if String.eqb k "last_changed" || String.eqb k "last_author" then Some VNone
      else if decide (k ∈ BASIC_KEYS) then Some (VInt 0) else None.
Proof.
  cbn zeta. cbn [node_update_stats].
  rewrite (nocache_update_stats_eager _ (zero_stats BASIC_KEYS)
             (fun s' _ => dummy_calculate_basic__run s')).
  cbn [fst snd saved cache_entry data]. split; [done|]. split; [done|]. split; [done|].
  eexists. split; [reflexivity|]. intros k.
  destruct (String.eqb_spec k "stats_timestamp") as [->|Hk]; [by rewrite lookup_insert_eq|].
  rewrite lookup_insert_ne by congruence. rewrite zero_stats_lookup.
  by apply String.eqb_neq in Hk as ->.
Qed.

Lemma ghost_stats_some (b : child) :
  NoCache.ghost_stats (Some b) !! "all"%string = Some (b "all"%string) /\
  NoCache.ghost_stats (Some b) !! "all_words"%string = Some (b "all_words"%string) /\
  NoCache.ghost_stats (Some b) !! "all_chars"%string = Some (b "all_chars"%string) /\
  NoCache.ghost_stats (Some b) !! "todo"%string = Some (b "all"%string) /\
  NoCache.ghost_stats (Some b) !! "todo_words"%string = Some (b "all_words"%string) /\
  NoCache.ghost_stats (Some b) !! "todo_chars"%string = Some (b "all_chars"%string).
Proof.
  unfold NoCache.ghost_stats. cbn zeta.
  set (z := zero_stats SOURCE_KEYS).
  set (m := <["all_chars" := b "all_chars"%string]>
              (<["all_words" := b "all_words"%string]> (<["all" := b "all"%string]> z))).
  assert (Ha : m !! "all"%string = Some (b "all"%string)).
  { subst m. rewrite !lookup_insert_ne by done. by rewrite lookup_insert_eq. }
  assert (Hw : m !! "all_words"%string = Some (b "all_words"%string)).
  { subst m. rewrite lookup_insert_ne by done. by rewrite lookup_insert_eq. }
  assert (Hc : m !! "all_chars"%string = Some (b "all_chars"%string)).
  { subst m. by rewrite lookup_insert_eq. }
  rewrite Ha. cbn [default from_option id].
  assert (Hw' : (<["todo" := b "all"%string]> m : record) !! "all_words"%string
                = Some (b "all_words"%string)) by (rewrite lookup_insert_ne by done; exact Hw).
  rewrite Hw'. cbn [default from_option id].
  assert (Hc' : (<["todo_words" := b "all_words"%string]> (<["todo" := b "all"%string]> m)
                 : record) !! "all_chars"%string = Some (b "all_chars"%string))
    by (rewrite !lookup_insert_ne by done; exact Hc).
  rewrite Hc'. cbn [default from_option id].
  split; [rewrite !lookup_insert_ne by done; exact Ha|].
  split; [rewrite !lookup_insert_ne by done; exact Hw|].
  split; [rewrite !lookup_insert_ne by done; exact Hc|].
  split; [rewrite lookup_insert_ne, lookup_insert_ne by done; by rewrite lookup_insert_eq|].
  split; [rewrite lookup_insert_ne by done; by rewrite lookup_insert_eq|].
  by rewrite lookup_insert_eq.
Qed.

(** An eager [update_stats()] of a [GhostStats] with a base stores the
    base's [all], [all_words] and [all_chars] ([None] read as 0), with
    [todo], [todo_words] and [todo_chars] equal to them, stamps the clock,
    and saves nothing nor writes the cache. *)
Theorem ghost_update_stats_eager (fuel : nat) (b : child) (s : stats_state) :
  let res := node_update_stats fuel (NGhost (Some b)) false s in
  fst res = inr tt /\ saved (snd res) = saved s /\ cache_entry (snd res) = cache_entry s /\
  exists d : record, data (snd res) = Some d /\
    d !! "all"%string = Some (store_value "all" (b "all"%string)) /\
    d !! "all_words"%string = Some (store_value "all_words" (b "all_words"%string)) /\
    d !! "all_chars"%string = Some (store_value "all_chars" (b "all_chars"%string)) /\
    d !! "todo"%string = d !! "all"%string /\
    d !! "todo_words"%string = d !! "all_words"%string /\
    d !! "todo_chars"%string = d !! "all_chars"%string /\
    d !! "stats_timestamp"%string = Some (VInt (clock s)).
Proof.
  cbn zeta. cbn [node_update_stats].
  rewrite (nocache_update_stats_eager _ _ (ghost_calculate_basic__run (Some b))).
  cbn [fst snd saved cache_entry data]. split; [done|]. split; [done|]. split; [done|].
  eexists. split; [reflexivity|].
  set (G := NoCache.ghost_stats (Some b)).
  assert (Hin : forall k v, G !! k = Some v -> k <> "stats_timestamp"%string ->
     (<["stats_timestamp" := VInt (clock s)]> (store_pairs (map_to_list G) ∅) : record) !! k
       = Some (store_value k v)).
  { intros k v Hk Hts. rewrite lookup_insert_ne by congruence.
    apply store_pairs_in; [apply NoDup_fst_map_to_list|]. by apply elem_of_map_to_list. }
  destruct (ghost_stats_some b) as (Ha & Hw & Hc & Ht & Htw & Htc).
  rewrite (Hin _ _ Ha), (Hin _ _ Hw), (Hin _ _ Hc), (Hin _ _ Ht), (Hin _ _ Htw), (Hin _ _ Htc)
    by done.
  split; [done|]. split; [done|]. split; [done|].
  split; [by destruct (b "all"%string)|].
  split; [by destruct (b "all_words"%string)|].
  split; [by destruct (b "all_chars"%string)|].
  by rewrite lookup_insert_eq.
Qed.

End NodeFacts.

(** ** Further facts: [get_update_objects()] *)

Module ParentsFacts.
Import Parents Inputs.

Lemma dedup_new k l acc :
  k ∉ acc -> fold_left dedup_step (k :: l) acc = fold_left dedup_step l (acc ++ [k]).
Proof. intros H. simpl. unfold dedup_step at 2. by case_decide. Qed.

Lemma dedup_old k l acc :
  k ∈ acc -> fold_left dedup_step (k :: l) acc = fold_left dedup_step l acc.
Proof. intros H. simpl. unfold dedup_step at 2. by case_decide. Qed.

Lemma dedup_one_new k acc :
  k ∉ acc -> fold_left dedup_step [k] acc = acc ++ [k].
Proof. intros H. simpl. unfold dedup_step. by case_decide. Qed.

Lemma dedup_one_old k acc :
  k ∈ acc -> fold_left dedup_step [k] acc = acc.
Proof. intros H. simpl. unfold dedup_step. by case_decide. Qed.

Lemma category_chain_head c : exists rest, category_chain c = c :: rest.
Proof. destruct c as [k p [q|]]; simpl; eauto. Qed.

(** The keys of the ancestors of a category, nearest first. *)
Lemma category_update_dedup ts : forall (q : category) (p : string) (acc : list string),
  Forall (fun x => cat_project_of x = p) (category_chain q) ->
  stats_key p ∈ acc -> GLOBAL ∈ acc ->
  NoDup (acc ++ tail (category_keys q)) ->
  fold_left dedup_step (cache_key <$> category_update_objects ts q) acc
    = acc ++ tail (category_keys q).
Proof.
  fix IH 1. intros [k p0 parent] p acc Hp Hpk Hg Hnd.
  assert (Hp0 : p0 = p).
  { destruct parent as [q|]; simpl in Hp; inversion Hp; done. }
  subst p0. cbn [category_update_objects].
  rewrite !fmap_app, !fold_left_app.
  change (cache_key <$> [sref ts (stats_key p)]) with [stats_key p].
  change (cache_key <$> base_update_objects ts) with [GLOBAL].
  rewrite (dedup_one_old (stats_key p) acc Hpk), (dedup_one_old GLOBAL acc Hg).
  destruct parent as [q|].
  - cbn [category_chain] in Hp. apply Forall_cons in Hp as [_ Hp].
    destruct (category_chain_head q) as [rest Hq].
    assert (Htail : tail (category_keys (Category k p (Some q)))
                    = stats_key (cat_key_of q) :: tail (category_keys q)).
    { unfold category_keys. cbn [category_chain]. rewrite Hq, !fmap_cons. done. }
    rewrite Htail in Hnd |- *.
    rewrite fmap_app, fold_left_app.
    change (cache_key <$> [sref ts (stats_key (cat_key_of q))]) with [stats_key (cat_key_of q)].
    assert (Hnew : stats_key (cat_key_of q) ∉ acc).
    { apply NoDup_app in Hnd as (_ & Hdis & _). intros Hin. apply (Hdis _ Hin).
      by apply elem_of_cons; left. }
    rewrite (dedup_one_new _ _ Hnew).
    rewrite (IH q p (acc ++ [stats_key (cat_key_of q)])).
    + rewrite (dedup_one_old GLOBAL).
      * by rewrite <- app_assoc.
      * apply elem_of_app. left. apply elem_of_app. by left.
    + done.
    + apply elem_of_app. by left.
    + apply elem_of_app. by left.
    + by rewrite <- app_assoc.
  - assert (Htail : tail (category_keys (Category k p None)) = []) by reflexivity.
    rewrite Htail, app_nil_r. exact (dedup_one_old GLOBAL acc Hg).
Qed.

Lemma lists_dedup ts (ls : list string) acc :
  GLOBAL ∈ acc -> NoDup (acc ++ (stats_key <$> ls)) ->
  fold_left dedup_step
    (cache_key <$> flat_map (fun cl => [sref ts (stats_key cl)] ++ base_update_objects ts) ls) acc
  = acc ++ (stats_key <$> ls).
Proof.
  revert acc. induction ls as [|cl ls IH]; intros acc Hg Hnd.
  - by rewrite app_nil_r.
  - cbn [flat_map]. rewrite !fmap_app, !fold_left_app.
    change (cache_key <$> [sref ts (stats_key cl)]) with [stats_key cl].
    change (cache_key <$> base_update_objects ts) with [GLOBAL].
    rewrite fmap_cons in Hnd |- *.
    rewrite (dedup_one_new (stats_key cl) acc).
    2: { apply NoDup_app in Hnd as (_ & Hdis & _). intros Hin. apply (Hdis _ Hin).
         by apply elem_of_cons; left. }
    rewrite (dedup_one_old GLOBAL) by set_solver.
    rewrite IH; [by rewrite <- app_assoc|set_solver|by rewrite <- app_assoc].
Qed.

Lemma sref_objects ts (objs : list stat_ref) :
  Forall (fun st => st = sref ts (cache_key st)) objs ->
  (stat_objects objs []).*2 = sref ts <$> dedup_first (cache_key <$> objs).
Proof.
  intros H.
  assert (Hinv : Forall (fun p : string * stat_ref => p.2 = sref ts p.1) (stat_objects objs [])).
  { apply stat_objects_fold_inv; [|done]. rewrite app_nil_r.
    eapply Forall_impl; [exact H|]. intros st Hst. exact Hst. }
  assert (Hkeys : (stat_objects objs []).*1 = dedup_first (cache_key <$> objs)).
  { unfold stat_objects, dedup_first. rewrite stat_objects_fold_keys, app_nil_r. done. }
  rewrite <- Hkeys. clear Hkeys H. induction Hinv as [|[k st] rest Hst _ IH]; [done|].
  rewrite !fmap_cons, IH. cbn [fst snd] in *. by rewrite Hst.
Qed.

Lemma nodup_prefix (l r k : list string) : k = l ++ r -> NoDup k -> NoDup l.
Proof. intros -> H. by apply NoDup_app in H as [H _]. Qed.

Lemma filter_all {A} (P : A -> Prop) `{forall x, Decision (P x)} (l : list A) :
  (forall x, P x) -> filter P l = l.
Proof. intros HP. induction l as [|x l IH]; [done|]. by rewrite filter_cons_True, IH. Qed.

Lemma fresh_of_prefix (acc r K : list string) k : K = (acc ++ [k]) ++ r -> NoDup K -> k ∉ acc.
Proof.
  intros -> H. apply NoDup_app in H as [H _]. apply NoDup_app in H as (_ & Hd & _).
  intros Hin. apply (Hd _ Hin). by apply list_elem_of_singleton.
Qed.

Ltac list_norm := rewrite <- ?app_assoc; simpl; rewrite <- ?app_assoc; simpl; reflexivity.

Ltac fresh_key HK :=
  lazymatch type of HK with NoDup ?K =>
  lazymatch goal with |- ?k ∉ ?acc =>
    let H := fresh in
    assert (H : exists r, K = (acc ++ [k]) ++ r) by (eexists; list_norm);
    let r := fresh "r" in
    destruct H as [r H]; exact (fresh_of_prefix acc r K k H HK)
  end end.

Ltac prefix_nodup HK :=
  lazymatch type of HK with NoDup ?K =>
  lazymatch goal with |- NoDup ?X =>
    let H := fresh in
    assert (H : exists r, K = X ++ r) by (eexists; list_norm);
    let r := fresh "r" in
    destruct H as [r H]; exact (nodup_prefix X r K H HK)
  end end.

(** [update_parents()] of a translation gathers its ancestors' stats in
    the order: its language, [GlobalStats], its component, the project,
    the component's category and that category's ancestors (nearest
    first), the component lists, and the project-language pair; so the
    global stats come second, not last. *)
Theorem translation_update_order (ts : string -> Z) (t : translation_obj) :
  (forall q, comp_category (tr_component t) = Some q ->
     Forall (fun x => cat_project_of x = comp_project (tr_component t)) (category_chain q)) ->
  NoDup ([stats_key (tr_language t); GLOBAL; stats_key (comp_key (tr_component t));
          stats_key (comp_project (tr_component t))]
         ++ from_option category_keys [] (comp_category (tr_component t))
         ++ (stats_key <$> comp_lists (tr_component t))
         ++ [stats_key (project_language_key t)]) ->
  (stat_objects (translation_update_objects ts t) []).*2 =
    sref ts <$> ([stats_key (tr_language t); GLOBAL; stats_key (comp_key (tr_component t));
                  stats_key (comp_project (tr_component t))]
                 ++ from_option category_keys [] (comp_category (tr_component t))
                 ++ (stats_key <$> comp_lists (tr_component t))
                 ++ [stats_key (project_language_key t)]) /\
  update_parents 0 (translation_update_objects ts t) [] =
    sref ts <$> ([stats_key (tr_language t); GLOBAL; stats_key (comp_key (tr_component t));
                  stats_key (comp_project (tr_component t))]
                 ++ from_option category_keys [] (comp_category (tr_component t))
                 ++ (stats_key <$> comp_lists (tr_component t))
                 ++ [stats_key (project_language_key t)]).
Proof.
  intros Hcat HK.
  assert (Hobj : (stat_objects (translation_update_objects ts t) []).*2 =
    sref ts <$> ([stats_key (tr_language t); GLOBAL; stats_key (comp_key (tr_component t));
                  stats_key (comp_project (tr_component t))]
                 ++ from_option category_keys [] (comp_category (tr_component t))
                 ++ (stats_key <$> comp_lists (tr_component t))
                 ++ [stats_key (project_language_key t)])).
  { rewrite (sref_objects ts).
    2: { unfold translation_update_objects, component_update_objects.
         repeat (apply Forall_app; split); try (repeat constructor; fail).
         - destruct (comp_category (tr_component t)) as [q|]; [|constructor].
           apply Forall_app; split; [repeat constructor|].
           clear. revert q. fix IH 1. intros [k p parent]. cbn [category_update_objects].
           repeat (apply Forall_app; split); try (repeat constructor; fail).
           destruct parent as [q|]; [|constructor].
           apply Forall_app; split; [repeat constructor|]. apply IH.
         - apply Forall_forall. intros st Hst. apply list_elem_of_In, in_flat_map in Hst
             as [cl [_ Hst]]. apply list_elem_of_In in Hst.
           repeat (apply elem_of_cons in Hst as [->|Hst]; [done|]).
           by apply not_elem_of_nil in Hst. }
    f_equal. destruct t as [lang lpk [ck cp ccat cls]]. cbn [tr_component comp_category
      comp_lists comp_key comp_project tr_language] in *.
    unfold translation_update_objects, component_update_objects, dedup_first.
    cbn [tr_component comp_category comp_lists comp_key comp_project tr_language].
    rewrite !fmap_app.
    change (cache_key <$> base_update_objects ts) with [GLOBAL].
    cbn [fmap list_fmap cache_key sref app].
    set (pl := stats_key (project_language_key _)) in *.
    rewrite (dedup_new (stats_key lang)) by set_solver.
    rewrite (dedup_new GLOBAL) by fresh_key HK.
    rewrite (dedup_new (stats_key ck)) by fresh_key HK.
    rewrite (dedup_new (stats_key cp)) by fresh_key HK.
    rewrite (dedup_old GLOBAL) by set_solver.
    destruct ccat as [q|].
    + destruct (category_chain_head q) as [rest Hq].
      assert (Hck : category_keys q = stats_key (cat_key_of q) :: tail (category_keys q)).
      { unfold category_keys. by rewrite Hq. }
      cbn [from_option] in HK |- *. rewrite Hck in HK |- *.
      cbn [fmap list_fmap cache_key sref app].
      rewrite (dedup_new (stats_key (cat_key_of q))) by fresh_key HK.
      rewrite <- ?app_assoc, fold_left_app.
      rewrite (category_update_dedup ts q cp); [| by apply Hcat | set_solver | set_solver |
        prefix_nodup HK].
      rewrite <- ?app_assoc, fold_left_app.
      change (fun cl : string => sref ts (stats_key cl) :: base_update_objects ts)
        with (fun cl : string => [sref ts (stats_key cl)] ++ base_update_objects ts).
      rewrite lists_dedup; [| set_solver | prefix_nodup HK].
      cbn [app].
      rewrite (dedup_old GLOBAL) by set_solver.
      rewrite (dedup_new pl) by fresh_key HK.
      rewrite (dedup_old GLOBAL) by set_solver.
      rewrite (dedup_old GLOBAL) by set_solver.
      cbn [fold_left]. list_norm.
    + cbn [from_option fmap list_fmap app] in HK |- *.
      rewrite <- ?app_assoc, fold_left_app.
      change (fun cl : string => sref ts (stats_key cl) :: base_update_objects ts)
        with (fun cl : string => [sref ts (stats_key cl)] ++ base_update_objects ts).
      rewrite lists_dedup; [| set_solver | prefix_nodup HK].
      cbn [app].
      rewrite (dedup_old GLOBAL) by set_solver.
      rewrite (dedup_new pl) by fresh_key HK.
      rewrite (dedup_old GLOBAL) by set_solver.
      rewrite (dedup_old GLOBAL) by set_solver.
      cbn [fold_left]. list_norm.
  }
  split; [exact Hobj|].
  unfold update_parents. rewrite Hobj. apply filter_all. intros st. done.
Qed.

Lemma translation_update_order_witness :
  NoDup ["stats-cs"; "stats-global"; "stats-p/c"; "stats-p"; "stats-p/root/sub";
         "stats-p/root"; "stats-list"; "stats-p-7"]%string /\
  cache_key <$> update_parents 0 (translation_update_objects (fun _ => 0) nested_translation) []
    = ["stats-cs"; "stats-global"; "stats-p/c"; "stats-p"; "stats-p/root/sub";
       "stats-p/root"; "stats-list"; "stats-p-7"]%string.
Proof.
  split; [decide_list|].
  destruct (translation_update_order (fun _ => 0) nested_translation) as [_ H].
  - intros q Hq. injection Hq as <-. simpl. repeat constructor.
  - decide_list.
  - rewrite H. vm_compute. reflexivity.
Defined.

End ParentsFacts.
